(** * lounge: a three-level logging facade

    Shallow embedding of [src/lounge.go] and the properties of its
    observable behaviour: which bytes each call appends to which writer,
    and how [With] changes the context of the logger it is called on.

    How the Go program is read:
    - a [*DefaultLog] is a location of a store of structs, so that
      [With], which returns its receiver, returns the same location;
    - an [io.Writer] is a name for a growing sequence of bytes; the
      logger ignores the results of its writes, so a write always
      appends;
    - the clock, the GOPATH variable and the call stack are inputs of
      each log call;
    - the order in which [range] visits a map is an input too: a seed
      that selects one of the permutations of the entries;
    - [fmt.Fprintf] is applied to the format the logger builds, which
      contains the timestamp, the tag, the caller and the rendered
      pairs as well as the caller's format.

    Layout: the first part holds the embedding (the pieces of the Go
    standard library the logger calls, then the logger itself and the
    vocabulary of the statements); the second part holds the lemmas and
    theorems. *)

From Stdlib Require Import String Ascii ZArith DecimalString Lia.
From stdpp Require Import gmap strings list fin_maps.

Open Scope string_scope.

(* ===================================================================== *)
(** * Part I: the embedding                                               *)
(* ===================================================================== *)

(** ** Characters used by the logger *)

Definition nl : string := String "010" EmptyString.
Definition percent : ascii := "%".
Definition bar : ascii := "|".
Definition newline : ascii := "010".

(** ** package strings *)

Module GoStrings.

(** [strings.Join(elems, sep)]. *)
Fixpoint Join (elems : list string) (sep : string) : string :=
  match elems with
  | [] => EmptyString
  | [s] => s
  | s :: rest => s +:+ sep +:+ Join rest sep
  end.

(** [strings.HasPrefix(s, prefix)]. *)
Definition HasPrefix (s pre : string) : bool := String.prefix pre s.

(** Left-to-right scan of [strings.ReplaceAll] for a non-empty [old]:
    [skip] counts the bytes of a matched [old] still to be dropped. *)
Fixpoint replaceScan (old new : string) (skip : nat) (s : string) : string :=
  match s with
  | EmptyString => EmptyString
  | String c s' =>
    match skip with
    | S k => replaceScan old new k s'
    | O =>
      if HasPrefix s old
      then new +:+ replaceScan old new (String.length old - 1) s'
      else String c (replaceScan old new 0 s')
    end
  end.

(** With an empty [old], Go puts [new] in front of every character and
    at the end of the string. *)
Fixpoint intersperse (new s : string) : string :=
  match s with
  | EmptyString => new
  | String c s' => new +:+ String c (intersperse new s')
  end.

(** [strings.ReplaceAll(s, old, new)] (on bytes). *)
Definition ReplaceAll (s old new : string) : string :=
  match old with
  | EmptyString => intersperse new s
  | _ => replaceScan old new 0 s
  end.

(** [strings.Contains(s, substr)]. *)
Fixpoint Contains (s sub : string) : bool :=
  HasPrefix s sub ||
  match s with
  | EmptyString => false
  | String _ s' => Contains s' sub
  end.



End GoStrings.

(** ** package strconv *)

Module GoStrconv.

(** [strconv.Itoa]. *)
Definition Itoa (i : Z) : string := NilZero.string_of_int (Z.to_int i).

End GoStrconv.

(** ** package fmt

    [Sprintf] follows [fmt]'s [doPrintf] on the fragment the logger and
    its examples use: operands that are strings or ints, and verbs
    written as [%] followed by one character, without flags, width,
    precision or argument index.  On that fragment [%s] and [%v] print a
    string, [%d] and [%v] print an int, [%%] prints a percent sign, and
    the diagnostics are those of [fmt]: [%!v(MISSING)] for a verb with
    no operand left, [%!(NOVERB)] for a [%] that ends the format,
    [%!v(type=value)] for a verb the operand does not accept, and
    [%!(EXTRA type=value, ...)] for operands no verb consumed.  Verbs
    [fmt] accepts beyond these ([%q], [%x], ...) are outside the
    fragment. *)

Module GoFmt.

(** An operand of a variadic [...interface{}] argument list. *)
Inductive Arg : Type :=
  | AString (s : string)
  | AInt (i : Z).

(** [reflect.TypeOf(arg).String()]. *)
Definition typeName (arg : Arg) : string :=
  match arg with
  | AString _ => "string"
  | AInt _ => "int"
  end.

(** The operand under [%v]. *)
Definition printValue (arg : Arg) : string :=
  match arg with
  | AString s => s
  | AInt i => GoStrconv.Itoa i
  end.

(** [badVerb]: [%!verb(type=value)]. *)
Definition badVerb (verb : ascii) (arg : Arg) : string :=
  "%!" +:+ String verb "(" +:+ typeName arg +:+ "=" +:+ printValue arg +:+ ")".

(** [missingArg]: [%!verb(MISSING)]. *)
Definition missingArg (verb : ascii) : string :=
  "%!" +:+ String verb "(MISSING)".

(** [printArg(arg, verb)]. *)
Definition printArg (arg : Arg) (verb : ascii) : string :=
  match arg with
  | AString s =>
    if (verb =? "s")%char || (verb =? "v")%char then s else badVerb verb arg
  | AInt i =>
    if (verb =? "d")%char || (verb =? "v")%char
    then GoStrconv.Itoa i else badVerb verb arg
  end.

(** The operands left over when the format is exhausted. *)
Definition extraArgs (a : list Arg) : string :=
  match a with
  | [] => EmptyString
  | _ =>
    "%!(EXTRA " +:+
    GoStrings.Join (map (fun arg => typeName arg +:+ "=" +:+ printValue arg) a) ", "
    +:+ ")"
  end.

(** [doPrintf]: literal text is copied, each verb consumes one operand. *)
Fixpoint Sprintf (format : string) (a : list Arg) : string :=
  match format with
  | EmptyString => extraArgs a
  | String c rest =>
    if (c =? percent)%char then
      match rest with
      | EmptyString => "%!(NOVERB)" +:+ extraArgs a
      | String verb rest' =>
        if (verb =? percent)%char then String percent (Sprintf rest' a)
        else
          match a with
          | [] => missingArg verb +:+ Sprintf rest' []
          | arg :: a' => printArg arg verb +:+ Sprintf rest' a'
          end
      end
    else String c (Sprintf rest a)
  end.


End GoFmt.

(** ** package time *)

Module GoTime.

(** An instant, already converted to UTC ([time.Now().In(time.UTC)]). *)
Record Time : Type := mkTime {
  year : nat; month : nat; day : nat;
  hour : nat; minute : nat; second : nat
}.

Definition decimal (n : nat) : string := NilZero.string_of_uint (Nat.to_uint n).

Fixpoint zeros (n : nat) : string :=
  match n with
  | O => EmptyString
  | S k => String "0" (zeros k)
  end.

(** Decimal rendering, zero-padded on the left to [width] digits. *)
Definition padded (width n : nat) : string :=
  let d := decimal n in zeros (width - String.length d) +:+ d.

(** [t.Format(time.RFC3339)] for a UTC instant: [2006-01-02T15:04:05Z]. *)
Definition RFC3339 (t : Time) : string :=
  padded 4 (year t) +:+ "-" +:+ padded 2 (month t) +:+ "-" +:+ padded 2 (day t)
  +:+ "T" +:+ padded 2 (hour t) +:+ ":" +:+ padded 2 (minute t) +:+ ":"
  +:+ padded 2 (second t) +:+ "Z".

End GoTime.

(** ** package runtime *)

Module GoRuntime.

(** The fields of [runtime.Frame] the logger reads or writes. *)
Record Frame : Type := mkFrame {
  Function : string;
  File : string;
  Line : Z
}.

(** The zero value of [Frame]. *)
Definition zeroFrame : Frame := mkFrame EmptyString EmptyString 0.

(** [runtime.Callers(0, pc)] on a call stack [stack] (innermost frame
    first, [runtime.Callers] itself at index 0): it fills at most
    [len(pc)] entries. *)
Definition Callers (stack : list Frame) (len_pc : nat) : list Frame :=
  firstn len_pc stack.

End GoRuntime.

(** ** package lounge *)

Export GoFmt GoRuntime.

(** *** The ambient state a log call reads

    [now] is what [time.Now] returns, [gopath] what
    [os.LookupEnv("GOPATH")] returns, [stack] the call stack seen by
    [runtime.Callers] inside [getFrame], and [rangeSeed] picks the order
    in which this call's [range] over the context map visits its
    entries (Go leaves that order unspecified). *)

Record Env : Type := mkEnv {
  now : GoTime.Time;
  gopath : option string;
  stack : list Frame;
  rangeSeed : nat
}.

(** *** Writers and the heap *)

(** A [*DefaultLog]. *)
Definition loc : Type := nat.

(** An [io.Writer]: the [bufio.Writer] over standard output that
    [NewDefaultLog] creates for the logger it allocates, or a writer
    supplied by the caller through [WithOutput]. *)
Inductive Writer : Type :=
  | BufStdout (owner : loc)
  | External (id : nat).

#[global] Instance Writer_eq_dec : EqDecision Writer.
Proof. solve_decision. Defined.

#[global] Instance Writer_countable : Countable Writer.
Proof.
  refine (inj_countable'
    (fun w => match w with BufStdout l => inl l | External i => inr i end)
    (fun s => match s with inl l => BufStdout l | inr i => External i end) _).
  by intros [].
Defined.

(** [type DefaultLog struct]. *)
Record DefaultLog : Type := mkDefaultLog {
  pairs : gmap string string;
  enableDebug : bool;
  output : Writer
}.

(** The store: the [DefaultLog] structs reachable through pointers, the
    bytes each writer has received, and the number of calls made into
    package [fmt] so far.  The map of a [DefaultLog] is created by
    [NewDefaultLog] and reachable only through the [pairs] field of its
    struct, so it is kept with it: [newPairs := dl.pairs] followed by
    stores into [newPairs] and [dl.pairs = newPairs] is a read of the
    field, the stores, and a write of the field. *)
Record World : Type := mkWorld {
  logs : gmap loc DefaultLog;
  sinks : gmap Writer string;
  fmtCalls : nat
}.

Definition emptyWorld : World := mkWorld ∅ ∅ 0.

(** The bytes a writer has received. *)
Definition written (w : World) (out : Writer) : string :=
  default EmptyString (sinks w !! out).

(** [fmt.Sprintf] as a step of the store. *)
Definition callSprintf (format : string) (a : list Arg) (w : World) : string * World :=
  (Sprintf format a, mkWorld (logs w) (sinks w) (S (fmtCalls w))).

(** [fmt.Fprintf(out, format, a...)]; the logger discards its results,
    so a write is modelled as an append that always goes through. *)
Definition Fprintf (out : Writer) (format : string) (a : list Arg) (w : World) : World :=
  mkWorld (logs w)
          (<[out := written w out +:+ Sprintf format a]> (sinks w))
          (S (fmtCalls w)).

(** *** Iteration over a Go map *)

(** The entries of [m] in the order selected by [seed]: every
    permutation of the entries is selected by some seed. *)
Definition rangeOrder (seed : nat) (m : gmap string string) : list (string * string) :=
  let entries := map_to_list m in
  let orders := permutations entries in
  default entries (orders !! (seed mod length orders)).

(** *** Construction *)

(** [type Option func(l *DefaultLog)], by the two constructors the
    package exports. *)
Inductive Option : Type :=
  | WithDebugEnabled
  | WithOutput (w : Writer).

Definition applyOption (opt : Option) (dl : DefaultLog) : DefaultLog :=
  match opt with
  | WithDebugEnabled => mkDefaultLog (pairs dl) true (output dl)
  | WithOutput out => mkDefaultLog (pairs dl) (enableDebug dl) out
  end.

(** [func NewDefaultLog(opts ...Option) Log]. *)
Definition NewDefaultLog (opts : list Option) (w : World) : loc * World :=
  let l := fresh (dom (logs w)) in
  let dl := mkDefaultLog ∅ false (BufStdout l) in
  let dl := foldl (fun dl opt => applyOption opt dl) dl opts in
  (l, mkWorld (<[l := dl]> (logs w)) (sinks w) (fmtCalls w)).

(** *** [func (dl *DefaultLog) With(pairs map[string]string) Log]

    [newPairs] is the receiver's own map, each entry of the argument is
    stored into it, and the receiver itself is returned.  [seed] picks
    the order of the [range] over the argument. *)
Definition With (seed : nat) (l : loc) (newEntries : gmap string string) (w : World)
  : option (loc * World) :=
  dl ← logs w !! l;
  let newPairs := pairs dl in
  let newPairs :=
    foldl (fun m kv => <[kv.1 := kv.2]> m) newPairs (rangeOrder seed newEntries) in
  let dl := mkDefaultLog newPairs (enableDebug dl) (output dl) in
  Some (l, mkWorld (<[l := dl]> (logs w)) (sinks w) (fmtCalls w)).

(** *** [func getFrame(skipFrames int) runtime.Frame] *)

(** The loop over [frames.Next()], entered with [more] true:
    [frames] is what the iterator has not returned yet. *)
Fixpoint frameLoop (frames : list Frame) (frameIndex targetFrameIndex : nat)
  (frame : Frame) : Frame :=
  if (frameIndex <=? targetFrameIndex)%nat then
    match frames with
    | [] =>
      (* an exhausted iterator returns the zero Frame and more = false *)
      if (frameIndex =? targetFrameIndex)%nat then zeroFrame else frame
    | frameCandidate :: rest =>
      let more := negb (bool_decide (rest = [])) in
      let frame := if (frameIndex =? targetFrameIndex)%nat then frameCandidate else frame in
      if more then frameLoop rest (S frameIndex) targetFrameIndex frame else frame
    end
  else frame.

Definition getFrame (skipFrames : nat) (callStack : list Frame) : Frame :=
  let targetFrameIndex := skipFrames + 2 in
  let programCounters := Callers callStack (targetFrameIndex + 2) in
  let n := length programCounters in
  let frame := mkFrame "unknown" EmptyString 0 in
  if (0 <? n)%nat then frameLoop programCounters 0 targetFrameIndex frame else frame.

(** *** [func (dl *DefaultLog) printLevel(level, fmtStr string, args ...interface{})] *)

(** The [pairs] slice: one [Sprintf("%s=%s", k, v)] per entry. *)
Fixpoint renderPairs (entries : list (string * string)) (w : World) : list string * World :=
  match entries with
  | [] => ([], w)
  | (k, v) :: rest =>
    let '(token, w) := callSprintf "%s=%s" [AString k; AString v] w in
    let '(tokens, w) := renderPairs rest w in
    (token :: tokens, w)
  end.

(** [caller.File + "#" + strconv.Itoa(caller.Line)], with the GOPATH
    source prefix removed when GOPATH is set. *)
Definition callerWithLine (e : Env) : string :=
  let caller := getFrame 2 (stack e) in
  let callerWithLine := File caller +:+ "#" +:+ GoStrconv.Itoa (Line caller) in
  match gopath e with
  | Some gopath => GoStrings.ReplaceAll callerWithLine (gopath +:+ "/src/") EmptyString
  | None => callerWithLine
  end.

Definition printLevel (e : Env) (dl : DefaultLog) (level fmtStr : string)
  (args : list Arg) (w : World) : World :=
  let currentTime := GoTime.RFC3339 (now e) in
  let '(pairs, w) := renderPairs (rangeOrder (rangeSeed e) (pairs dl)) w in
  if enableDebug dl then
    Fprintf (output dl)
      (currentTime +:+ " |" +:+ level +:+ "| " +:+ callerWithLine e +:+ " "
       +:+ GoStrings.Join pairs " " +:+ fmtStr +:+ nl) args w
  else
    Fprintf (output dl)
      (currentTime +:+ " |" +:+ level +:+ "| "
       +:+ GoStrings.Join pairs " " +:+ fmtStr +:+ nl) args w.

(** *** The three levels *)

Definition Debugf (e : Env) (l : loc) (fmtStr : string) (args : list Arg) (w : World)
  : option World :=
  dl ← logs w !! l;
  if negb (enableDebug dl) then Some w
  else Some (printLevel e dl "DEBUG" fmtStr args w).

Definition Infof (e : Env) (l : loc) (fmtStr : string) (args : list Arg) (w : World)
  : option World :=
  dl ← logs w !! l;
  Some (printLevel e dl "INFO" fmtStr args w).

Definition Errorf (e : Env) (l : loc) (fmtStr : string) (args : list Arg) (w : World)
  : option World :=
  dl ← logs w !! l;
  Some (printLevel e dl "ERROR" fmtStr args w).

(** *** Programs over the public interface *)

(** One call of the package's public interface. *)
Inductive Call : Type :=
  | CallNew (opts : list Option)
  | CallWith (seed : nat) (l : loc) (newEntries : gmap string string)
  | CallDebugf (e : Env) (l : loc) (fmtStr : string) (args : list Arg)
  | CallInfof (e : Env) (l : loc) (fmtStr : string) (args : list Arg)
  | CallErrorf (e : Env) (l : loc) (fmtStr : string) (args : list Arg).

(** A call on a pointer that holds no [DefaultLog] has no result. *)
Definition exec (c : Call) (w : World) : option World :=
  match c with
  | CallNew opts => Some (NewDefaultLog opts w).2
  | CallWith seed l newEntries => snd <$> With seed l newEntries w
  | CallDebugf e l fmtStr args => Debugf e l fmtStr args w
  | CallInfof e l fmtStr args => Infof e l fmtStr args w
  | CallErrorf e l fmtStr args => Errorf e l fmtStr args w
  end.

Fixpoint execAll (cs : list Call) (w : World) : option World :=
  match cs with
  | [] => Some w
  | c :: cs => w ← exec c w; execAll cs w
  end.

(** *** Vocabulary of the statements *)

(** The text of one context pair in a line. *)
Definition token (kv : string * string) : string := kv.1 +:+ "=" +:+ kv.2.

(** No character of [s] is one of [bad]. *)
Fixpoint avoids (bad : list ascii) (s : string) : bool :=
  match s with
  | EmptyString => true
  | String c s' => negb (existsb (Ascii.eqb c) bad) && avoids bad s'
  end.

(** No key and no value of the context holds a character of [bad]. *)
Definition contextAvoids (bad : list ascii) (m : gmap string string) : bool :=
  forallb (fun kv => avoids bad kv.1 && avoids bad kv.2) (map_to_list m).

(** The characters that would end a line early or read as part of a
    level tag or of a verb. *)
Definition special : list ascii := [percent; bar; newline].

(** The caller segment of a line: present when the logger has debug
    enabled, whatever the level. *)
Definition callerSegment (e : Env) (dl : DefaultLog) : string :=
  if enableDebug dl then callerWithLine e +:+ " " else EmptyString.

(** What [printLevel] puts in front of [fmtStr] in the format it hands
    to [fmt.Fprintf]. *)
Definition linePrefix (e : Env) (dl : DefaultLog) (level : string) : string :=
  GoTime.RFC3339 (now e) +:+ " |" +:+ level +:+ "| " +:+ callerSegment e dl
  +:+ GoStrings.Join (map token (rangeOrder (rangeSeed e) (pairs dl))) " ".

(** The format [printLevel] hands to [fmt.Fprintf]. *)
Definition lineFormat (e : Env) (dl : DefaultLog) (level fmtStr : string) : string :=
  linePrefix e dl level +:+ fmtStr +:+ nl.



(** [w'] is [w] after [line] was appended to [out]. *)
Definition appended (w w' : World) (out : Writer) (line : string) : Prop :=
  written w' out = written w out +:+ line.

(** The three levels, the name [printLevel] receives for each, and the
    method that logs at each. *)
Inductive Level : Type := DEBUG | INFO | ERROR.

Definition levelName (lv : Level) : string :=
  match lv with
  | DEBUG => "DEBUG"
  | INFO => "INFO"
  | ERROR => "ERROR"
  end.

Definition logf (lv : Level) : Env → loc → string → list Arg → World → option World :=
  match lv with
  | DEBUG => Debugf
  | INFO => Infof
  | ERROR => Errorf
  end.


(** *** Fixed inputs of the examples *)

Definition noon : GoTime.Time := GoTime.mkTime 2024 1 15 10 30 0.

(** The stack of a call made from [main.go], line 42. *)
Definition mainStack : list Frame :=
  [ mkFrame "runtime.Callers" "/usr/local/go/src/runtime/extern.go" 331;
    mkFrame "lounge.getFrame" "/home/dev/go/src/lounge/lounge.go" 136;
    mkFrame "lounge.(*DefaultLog).printLevel" "/home/dev/go/src/lounge/lounge.go" 114;
    mkFrame "lounge.(*DefaultLog).Infof" "/home/dev/go/src/lounge/lounge.go" 98;
    mkFrame "main.main" "/home/dev/go/src/app/main.go" 42;
    mkFrame "runtime.main" "/usr/local/go/src/runtime/proc.go" 250 ].

Definition devEnv : Env := mkEnv noon (Some "/home/dev/go") mainStack 0.

(** An environment in which [runtime.Callers] finds no frame. *)
Definition bareEnv : Env := mkEnv noon None [] 0.

Definition buffer : Writer := External 0.

(** [NewDefaultLog(WithOutput(buffer))] in an empty store: the logger
    and the store that holds it. *)
Definition quietLog : loc := (NewDefaultLog [WithOutput buffer] emptyWorld).1.
Definition quietWorld : World := (NewDefaultLog [WithOutput buffer] emptyWorld).2.

(** [NewDefaultLog(WithOutput(buffer), WithDebugEnabled())], as in the
    package's test. *)
Definition debugLog : loc :=
  (NewDefaultLog [WithOutput buffer; WithDebugEnabled] emptyWorld).1.
Definition debugWorld : World :=
  (NewDefaultLog [WithOutput buffer; WithDebugEnabled] emptyWorld).2.

(** The context mappings of the examples. *)
Definition envTest : gmap string string := {[ "env" := "test" ]}.
Definition tierGold : gmap string string := {[ "tier" := "gold" ]}.
Definition promoHalf : gmap string string := {[ "promo" := "50%off" ]}.
Definition userAnn : gmap string string := {[ "user" := "ann" ]}.
Definition jobSync : gmap string string := {[ "job" := "sync" ]}.

(** A lineage: the logger is given context twice and used at each level. *)
Definition lineage : list Call :=
  [ CallInfof devEnv debugLog "starting %s" [AString "up"];
    CallWith 0 debugLog {[ "env" := "test" ]};
    CallDebugf devEnv debugLog "n=%d" [AInt 3];
    CallNew [];
    CallWith 1 debugLog {[ "env" := "prod" ]};
    CallErrorf devEnv debugLog "boom" [] ].

(** *** The package's test

    [func TestLog(t *testing.T)] of [lounge_test.go], with [os.Stderr]
    as the writer [stderr]: a logger with debug enabled logs at INFO,
    is given the pair [cool=stuff], and logs at INFO again.  [first]
    and [second] are the environments of the two [Infof] calls, [seed]
    orders the [range] of [With]. *)
Definition TestLog (first second : Env) (seed : nat) (stderr : Writer) (w : World)
  : option World :=
  let '(l, w) := NewDefaultLog [WithOutput stderr; WithDebugEnabled] w in
  w ← Infof first l "testing log: %s" [AString "thigns"] w;
  '(l, w) ← With seed l {[ "cool" := "stuff" ]} w;
  Infof second l "testing log 2: %s" [AString "thigns"] w.

(** The store in which the quiet logger has the context
    [user=ann], [job=sync]. *)
Definition taggedWorld : World :=
  default quietWorld (snd <$> With 0 quietLog (userAnn ∪ jobSync) quietWorld).

Definition taggedLog : DefaultLog := mkDefaultLog (userAnn ∪ jobSync) false buffer.

(** Calls that use the debug logger and give context to another logger. *)
Definition bystanderCalls : list Call :=
  [ CallInfof devEnv debugLog "up" [];
    CallNew [];
    CallWith 0 1 envTest;
    CallErrorf devEnv 1 "boom" [];
    CallDebugf devEnv debugLog "n=%d" [AInt 3] ].

(** An environment whose GOPATH is not where the caller's file lives. *)
Definition elsewhereEnv : Env := mkEnv noon (Some "/opt/gopath") mainStack 3.

(* ===================================================================== *)
(** * Part II: lemmas and theorems                                        *)
(* ===================================================================== *)

(** Closed goals about the fixed inputs are settled by evaluation. *)
Ltac evaluate := vm_compute; first [reflexivity | discriminate].

(** ** Strings *)

Section StringFacts.

Implicit Types s t u : string.

Lemma str_app_nil_l s : EmptyString +:+ s = s.
Proof. reflexivity. Qed.

Lemma str_app_cons c s t : String c s +:+ t = String c (s +:+ t).
Proof. reflexivity. Qed.

Lemma str_app_nil_r s : s +:+ EmptyString = s.
Proof. induction s as [|c s IH]; [done | by rewrite str_app_cons, IH]. Qed.

Lemma str_app_assoc s t u : (s +:+ t) +:+ u = s +:+ t +:+ u.
Proof. induction s as [|c s IH]; [done | by rewrite !str_app_cons, IH]. Qed.

Lemma avoids_app bad s t :
  avoids bad (s +:+ t) = avoids bad s && avoids bad t.
Proof.
  induction s as [|c s IH]; [done |].
  rewrite str_app_cons. simpl. by rewrite IH, andb_assoc.
Qed.

Lemma avoids_cons bad c s :
  avoids bad (String c s) = negb (existsb (Ascii.eqb c) bad) && avoids bad s.
Proof. reflexivity. Qed.

Lemma avoids_special_percent s :
  avoids special s = true → avoids [percent] s = true.
Proof.
  induction s as [|c s IH]; simpl; [done |].
  intros [Hc Hs]%andb_true_iff. rewrite (IH Hs), andb_true_r.
  by destruct (Ascii.eqb c percent).
Qed.



End StringFacts.

(** ** package fmt: literal text and exact consumption *)

Section FmtFacts.

Implicit Types (format lit s : string) (a : list Arg).

Lemma avoids_percent_cons c s :
  avoids [percent] (String c s) = true →
  (c =? percent)%char = false ∧ avoids [percent] s = true.
Proof.
  simpl. intros [Hc Hs]%andb_true_iff. split; [| done].
  by destruct (c =? percent)%char.
Qed.

Lemma Sprintf_literal c format a :
  (c =? percent)%char = false →
  Sprintf (String c format) a = String c (Sprintf format a).
Proof. intros Hc. simpl. by rewrite Hc. Qed.

(** Text without a percent sign in front of a format is copied. *)
Lemma Sprintf_prefix lit format a :
  avoids [percent] lit = true →
  Sprintf (lit +:+ format) a = lit +:+ Sprintf format a.
Proof.
  induction lit as [|c lit IH]; [done |].
  intros [Hc Hlit]%avoids_percent_cons.
  rewrite !str_app_cons, (Sprintf_literal _ _ _ Hc). by rewrite IH.
Qed.


(** [fmt.Sprintf("%s=%s", k, v)]. *)
Lemma Sprintf_pair k v :
  Sprintf "%s=%s" [AString k; AString v] = token (k, v).
Proof.
  unfold token. simpl. by rewrite !str_app_nil_r.
Qed.



End FmtFacts.

(** ** Iteration order of a map *)

Section RangeFacts.

Implicit Types (m : gmap string string) (seed : nat).

Lemma rangeOrder_Permutation seed m : rangeOrder seed m ≡ₚ map_to_list m.
Proof.
  unfold rangeOrder.
  destruct (permutations (map_to_list m) !! _) as [o|] eqn:Ho; simpl; [| done].
  symmetry. apply permutations_Permutation. by eapply list_elem_of_lookup_2.
Qed.

(** Every order of the entries is the order of some seed. *)
Lemma rangeOrder_complete m (o : list (string * string)) :
  o ≡ₚ map_to_list m → ∃ seed, rangeOrder seed m = o.
Proof.
  intros Ho. symmetry in Ho. apply permutations_Permutation in Ho.
  apply list_elem_of_lookup_1 in Ho as [i Hi].
  exists i. unfold rangeOrder.
  rewrite Nat.mod_small by (by eapply lookup_lt_Some).
  by rewrite Hi.
Qed.

Lemma elem_of_rangeOrder seed m k v :
  (k, v) ∈ rangeOrder seed m ↔ m !! k = Some v.
Proof. by rewrite rangeOrder_Permutation, elem_of_map_to_list. Qed.

Lemma NoDup_fst_rangeOrder seed m : NoDup (rangeOrder seed m).*1.
Proof. rewrite rangeOrder_Permutation. apply NoDup_fst_map_to_list. Qed.

Lemma rangeOrder_empty seed : rangeOrder seed ∅ = [].
Proof.
  apply Permutation_nil_r. rewrite rangeOrder_Permutation.
  by rewrite map_to_list_empty.
Qed.

Lemma rangeOrder_singleton seed k v : rangeOrder seed {[k := v]} = [(k, v)].
Proof.
  apply Permutation_singleton_r. rewrite rangeOrder_Permutation.
  by rewrite map_to_list_singleton.
Qed.

(** Storing entries with distinct keys one by one, in any order. *)
Lemma foldl_insert_notin (entries : list (string * string)) m k :
  k ∉ entries.*1 →
  foldl (fun m kv => <[kv.1 := kv.2]> m) m entries !! k = m !! k.
Proof.
  revert m. induction entries as [|[k' v'] entries IH]; intros m Hk; [done |].
  simpl in *. apply not_elem_of_cons in Hk as [Hne Hk].
  rewrite IH by done. by rewrite lookup_insert_ne.
Qed.

Lemma foldl_insert_in (entries : list (string * string)) m k v :
  NoDup entries.*1 → (k, v) ∈ entries →
  foldl (fun m kv => <[kv.1 := kv.2]> m) m entries !! k = Some v.
Proof.
  revert m. induction entries as [|[k' v'] entries IH]; intros m Hnd Hin.
  { by apply elem_of_nil in Hin. }
  simpl in *. apply NoDup_cons in Hnd as [Hk' Hnd].
  apply elem_of_cons in Hin as [[= -> ->] | Hin].
  - rewrite foldl_insert_notin by done. apply lookup_insert_eq.
  - by apply IH.
Qed.

(** The loop of [With] computes the union that prefers the new entries. *)
Lemma With_loop seed (newEntries m : gmap string string) :
  foldl (fun m kv => <[kv.1 := kv.2]> m) m (rangeOrder seed newEntries)
  = newEntries ∪ m.
Proof.
  apply map_eq. intros k.
  destruct (newEntries !! k) as [v|] eqn:Hk.
  - rewrite (lookup_union_Some_l _ _ _ _ Hk).
    apply foldl_insert_in; [apply NoDup_fst_rangeOrder |].
    by apply elem_of_rangeOrder.
  - rewrite lookup_union_r by done.
    apply foldl_insert_notin.
    intros [[k' v] [-> Hin]]%list_elem_of_fmap.
    apply elem_of_rangeOrder in Hin. simpl in Hk. congruence.
Qed.

End RangeFacts.

(** ** The store under [fmt] calls, [With] and [printLevel] *)

Section StoreFacts.

Implicit Types (w : World) (dl : DefaultLog) (e : Env) (l : loc) (out : Writer).

Lemma written_Fprintf out format a w :
  written (Fprintf out format a w) out = written w out +:+ Sprintf format a.
Proof. unfold written, Fprintf. simpl. by rewrite lookup_insert_eq. Qed.

Lemma written_Fprintf_ne out out' format a w :
  out ≠ out' → written (Fprintf out format a w) out' = written w out'.
Proof. intros Hne. unfold written, Fprintf. simpl. by rewrite lookup_insert_ne. Qed.

Lemma renderPairs_spec (entries : list (string * string)) w :
  renderPairs entries w
  = (map token entries, mkWorld (logs w) (sinks w) (length entries + fmtCalls w)).
Proof.
  revert w. induction entries as [|[k v] entries IH]; intros w.
  - by destruct w.
  - simpl. unfold callSprintf. rewrite IH. simpl.
    rewrite !str_app_nil_r. unfold token. simpl.
    do 3 f_equal. lia.
Qed.

(** [printLevel] is one [Fprintf] of the line format, after one
    [Sprintf] per context pair. *)
Lemma printLevel_spec e dl level fmtStr args w :
  printLevel e dl level fmtStr args w
  = Fprintf (output dl) (lineFormat e dl level fmtStr) args
      (mkWorld (logs w) (sinks w)
         (length (rangeOrder (rangeSeed e) (pairs dl)) + fmtCalls w)).
Proof.
  unfold printLevel, lineFormat, linePrefix, callerSegment.
  rewrite renderPairs_spec.
  destruct (enableDebug dl); f_equal; by rewrite ?str_app_assoc.
Qed.

Lemma printLevel_written e dl level fmtStr args w :
  written (printLevel e dl level fmtStr args w) (output dl)
  = written w (output dl) +:+ Sprintf (lineFormat e dl level fmtStr) args.
Proof. by rewrite printLevel_spec, written_Fprintf. Qed.

Lemma printLevel_written_ne e dl level fmtStr args w out :
  output dl ≠ out →
  written (printLevel e dl level fmtStr args w) out = written w out.
Proof. intros Hne. by rewrite printLevel_spec, written_Fprintf_ne. Qed.

Lemma printLevel_logs e dl level fmtStr args w :
  logs (printLevel e dl level fmtStr args w) = logs w.
Proof. by rewrite printLevel_spec. Qed.

(** [With] stores the union into the receiver and returns the receiver. *)
Lemma With_spec seed l newEntries w dl :
  logs w !! l = Some dl →
  With seed l newEntries w
  = Some (l, mkWorld
               (<[l := mkDefaultLog (newEntries ∪ pairs dl) (enableDebug dl) (output dl)]>
                  (logs w))
               (sinks w) (fmtCalls w)).
Proof. intros Hl. unfold With. rewrite Hl. simpl. by rewrite With_loop. Qed.

Lemma Infof_spec e l fmtStr args w dl :
  logs w !! l = Some dl →
  Infof e l fmtStr args w = Some (printLevel e dl "INFO" fmtStr args w).
Proof. intros Hl. unfold Infof. by rewrite Hl. Qed.

Lemma Errorf_spec e l fmtStr args w dl :
  logs w !! l = Some dl →
  Errorf e l fmtStr args w = Some (printLevel e dl "ERROR" fmtStr args w).
Proof. intros Hl. unfold Errorf. by rewrite Hl. Qed.

Lemma Debugf_spec e l fmtStr args w dl :
  logs w !! l = Some dl →
  Debugf e l fmtStr args w
  = Some (if enableDebug dl then printLevel e dl "DEBUG" fmtStr args w else w).
Proof. intros Hl. unfold Debugf. rewrite Hl. simpl. by destruct (enableDebug dl). Qed.

(** [NewDefaultLog] allocates a pointer that held no logger. *)
Lemma NewDefaultLog_fresh opts w : logs w !! (NewDefaultLog opts w).1 = None.
Proof.
  simpl. apply not_elem_of_dom. apply is_fresh.
Qed.

Lemma NewDefaultLog_lookup opts w :
  logs (NewDefaultLog opts w).2 !! (NewDefaultLog opts w).1
  = Some (foldl (fun dl opt => applyOption opt dl)
            (mkDefaultLog ∅ false (BufStdout (NewDefaultLog opts w).1)) opts).
Proof. simpl. by rewrite lookup_insert_eq. Qed.

End StoreFacts.

(** ** Level gating *)

Section Gating.

Implicit Types (w : World) (dl : DefaultLog) (e : Env) (l : loc).

(** C4: on a logger whose debug flag is off, [Debugf] returns with the
    store exactly as it found it, whatever the format and the operands:
    no writer has received a byte and no call into package [fmt] was
    made. *)
Theorem Debugf_disabled_is_silent e l fmtStr args w dl :
  logs w !! l = Some dl →
  enableDebug dl = false →
  ∃ w', Debugf e l fmtStr args w = Some w'
        ∧ (∀ out, written w' out = written w out)
        ∧ sinks w' = sinks w
        ∧ fmtCalls w' = fmtCalls w
        ∧ w' = w.
Proof.
  intros Hl Hoff. exists w.
  rewrite (Debugf_spec _ _ _ _ _ _ Hl), Hoff. by repeat split.
Qed.

Lemma Debugf_disabled_is_silent_witness :
  ∃ w', Debugf devEnv quietLog "n=%d" [AInt 3] quietWorld = Some w'
        ∧ (∀ out, written w' out = written quietWorld out)
        ∧ sinks w' = sinks quietWorld
        ∧ fmtCalls w' = fmtCalls quietWorld
        ∧ w' = quietWorld.
Proof.
  apply (Debugf_disabled_is_silent devEnv quietLog "n=%d" [AInt 3] quietWorld
           (mkDefaultLog ∅ false buffer)).
  - reflexivity.
  - reflexivity.
Defined.

End Gating.

(** ** What a lineage cannot change *)

Section Configuration.

Implicit Types (w : World) (dl : DefaultLog) (l : loc) (c : Call).

Lemma exec_keeps_configuration c w w' l dl :
  logs w !! l = Some dl →
  exec c w = Some w' →
  ∃ dl', logs w' !! l = Some dl'
         ∧ enableDebug dl' = enableDebug dl ∧ output dl' = output dl.
Proof.
  intros Hl Hc. destruct c as [opts|seed l0 newEntries|e l0 f a|e l0 f a|e l0 f a];
    simpl in Hc.
  - injection Hc as <-. exists dl. split; [| done]. simpl.
    rewrite lookup_insert_ne; [done |].
    intros Heq. pose proof (NewDefaultLog_fresh opts w) as Hfresh.
    simpl in Hfresh. rewrite Heq in Hfresh. congruence.
  - destruct (logs w !! l0) as [dl0|] eqn:Hl0.
    2:{ unfold With in Hc. by rewrite Hl0 in Hc. }
    rewrite (With_spec _ _ _ _ _ Hl0) in Hc. injection Hc as <-. simpl.
    destruct (decide (l0 = l)) as [->|Hne].
    + rewrite lookup_insert_eq. eexists. split; [done |]. simpl.
      by simplify_eq.
    + rewrite lookup_insert_ne by done. by exists dl.
  - destruct (logs w !! l0) as [dl0|] eqn:Hl0.
    2:{ unfold Debugf in Hc. by rewrite Hl0 in Hc. }
    rewrite (Debugf_spec _ _ _ _ _ _ Hl0) in Hc. injection Hc as <-.
    exists dl. split; [| done].
    destruct (enableDebug dl0); [by rewrite printLevel_logs | done].
  - destruct (logs w !! l0) as [dl0|] eqn:Hl0.
    2:{ unfold Infof in Hc. by rewrite Hl0 in Hc. }
    rewrite (Infof_spec _ _ _ _ _ _ Hl0) in Hc. injection Hc as <-.
    exists dl. by rewrite printLevel_logs.
  - destruct (logs w !! l0) as [dl0|] eqn:Hl0.
    2:{ unfold Errorf in Hc. by rewrite Hl0 in Hc. }
    rewrite (Errorf_spec _ _ _ _ _ _ Hl0) in Hc. injection Hc as <-.
    exists dl. by rewrite printLevel_logs.
Qed.

(** C8: through any sequence of calls of the public interface ([With],
    [Debugf], [Infof], [Errorf], and the construction of other loggers)
    a logger keeps the debug flag and the output writer it had when the
    sequence started, in particular those it was constructed with; only
    its context pairs can change. *)
Theorem configuration_is_immutable (cs : list Call) w w' l dl :
  logs w !! l = Some dl →
  execAll cs w = Some w' →
  ∃ dl', logs w' !! l = Some dl'
         ∧ enableDebug dl' = enableDebug dl ∧ output dl' = output dl.
Proof.
  revert w dl. induction cs as [|c cs IH]; intros w dl Hl Hrun; simpl in Hrun.
  - injection Hrun as <-. by exists dl.
  - destruct (exec c w) as [w1|] eqn:Hc; [| done]. simpl in Hrun.
    destruct (exec_keeps_configuration _ _ _ _ _ Hl Hc) as (dl1 & Hl1 & Hd & Ho).
    destruct (IH _ _ Hl1 Hrun) as (dl' & Hl' & Hd' & Ho').
    exists dl'. split; [done |]. split; congruence.
Qed.

Lemma configuration_is_immutable_witness :
  ∃ w', execAll lineage debugWorld = Some w'
        ∧ ∃ dl', logs w' !! debugLog = Some dl'
                 ∧ enableDebug dl' = true ∧ output dl' = buffer.
Proof.
  eexists. split.
  - vm_compute. reflexivity.
  - apply (configuration_is_immutable lineage debugWorld _ debugLog
             (mkDefaultLog ∅ true buffer)).
    + reflexivity.
    + vm_compute. reflexivity.
Defined.

End Configuration.

(** ** [With]: the context of the receiver *)

Section Context.

Implicit Types (w : World) (dl : DefaultLog) (e : Env) (l : loc).

(** [With] leaves the other loggers, the writers and the [fmt] counter alone. *)
Lemma With_context seed l newEntries w dl :
  logs w !! l = Some dl →
  ∃ w', With seed l newEntries w = Some (l, w')
        ∧ logs w' !! l
          = Some (mkDefaultLog (newEntries ∪ pairs dl) (enableDebug dl) (output dl))
        ∧ (∀ l', l' ≠ l → logs w' !! l' = logs w !! l')
        ∧ sinks w' = sinks w ∧ fmtCalls w' = fmtCalls w.
Proof.
  intros Hl. eexists. split; [by apply With_spec |]. simpl.
  rewrite lookup_insert_eq. repeat split; [].
  intros l' Hne. by rewrite lookup_insert_ne.
Qed.

(** C10: [With] of the empty mapping returns the receiver and leaves the
    store as it was; so the context of the returned logger is the
    original one, and each of [Debugf], [Infof] and [Errorf] called on
    the returned logger does, for the same environment, format and
    operands, exactly what it does on the original. *)
Theorem With_empty_is_identity seed l w dl :
  logs w !! l = Some dl →
  ∃ l' w', With seed l ∅ w = Some (l', w')
    ∧ l' = l ∧ w' = w
    ∧ pairs <$> logs w' !! l' = Some (pairs dl)
    ∧ ∀ e fmtStr args,
        Debugf e l' fmtStr args w' = Debugf e l fmtStr args w
        ∧ Infof e l' fmtStr args w' = Infof e l fmtStr args w
        ∧ Errorf e l' fmtStr args w' = Errorf e l fmtStr args w.
Proof.
  intros Hl. exists l, w.
  assert (With seed l ∅ w = Some (l, w)) as ->.
  { rewrite (With_spec _ _ _ _ _ Hl). rewrite (left_id_L ∅ (∪)).
    destruct dl as [p d o]; simpl. rewrite (insert_id _ _ _ Hl). by destruct w. }
  rewrite Hl. by repeat split.
Qed.

Lemma With_empty_is_identity_witness :
  ∃ l' w', With 7 debugLog ∅ debugWorld = Some (l', w')
    ∧ l' = debugLog ∧ w' = debugWorld
    ∧ pairs <$> logs w' !! l' = Some ∅
    ∧ ∀ e fmtStr args,
        Debugf e l' fmtStr args w' = Debugf e debugLog fmtStr args debugWorld
        ∧ Infof e l' fmtStr args w' = Infof e debugLog fmtStr args debugWorld
        ∧ Errorf e l' fmtStr args w' = Errorf e debugLog fmtStr args debugWorld.
Proof.
  apply (With_empty_is_identity 7 debugLog debugWorld (mkDefaultLog ∅ true buffer)).
  reflexivity.
Defined.

End Context.

(** ** package time: a timestamp is made of digits and separators *)

Section TimeFacts.

Lemma string_of_uint_avoids_special d :
  avoids special (NilEmpty.string_of_uint d) = true.
Proof. induction d; simpl; by rewrite ?IHd. Qed.

Lemma decimal_avoids_special n : avoids special (GoTime.decimal n) = true.
Proof.
  unfold GoTime.decimal, NilZero.string_of_uint.
  destruct (Nat.to_uint n); [done | ..]; apply string_of_uint_avoids_special.
Qed.

Lemma zeros_avoids_special n : avoids special (GoTime.zeros n) = true.
Proof. induction n as [|n IH]; simpl; [done | by rewrite IH]. Qed.

Lemma padded_avoids_special width n : avoids special (GoTime.padded width n) = true.
Proof.
  unfold GoTime.padded.
  by rewrite avoids_app, zeros_avoids_special, decimal_avoids_special.
Qed.

Lemma RFC3339_avoids_special t : avoids special (GoTime.RFC3339 t) = true.
Proof.
  unfold GoTime.RFC3339.
  by rewrite !avoids_app, !padded_avoids_special.
Qed.

Lemma RFC3339_avoids_percent t : avoids [percent] (GoTime.RFC3339 t) = true.
Proof. apply avoids_special_percent, RFC3339_avoids_special. Qed.

End TimeFacts.

(** ** package strings: substrings of a concatenation *)

Section ContainsFacts.

Import GoStrings.

Implicit Types s t sub sep : string.

Lemma HasPrefix_nil s : HasPrefix s EmptyString = true.
Proof. by destruct s. Qed.

Lemma HasPrefix_cons c s d sub :
  HasPrefix (String c s) (String d sub) = bool_decide (d = c) && HasPrefix s sub.
Proof.
  unfold HasPrefix. simpl. destruct (ascii_dec d c) as [->|Hne].
  - by rewrite bool_decide_eq_true_2.
  - by rewrite bool_decide_eq_false_2.
Qed.

Lemma HasPrefix_app sub t : HasPrefix (sub +:+ t) sub = true.
Proof.
  induction sub as [|c sub IH]; [apply HasPrefix_nil |].
  rewrite str_app_cons, HasPrefix_cons, IH. by rewrite bool_decide_eq_true_2.
Qed.

Lemma HasPrefix_app_l s t sub :
  HasPrefix s sub = true → HasPrefix (s +:+ t) sub = true.
Proof.
  revert s. induction sub as [|d sub IH]; intros s; [intros _; apply HasPrefix_nil |].
  destruct s as [|c s]; [done |].
  rewrite str_app_cons, !HasPrefix_cons.
  intros [Hd Hs]%andb_true_iff. by rewrite Hd, IH.
Qed.

Lemma Contains_cons c s sub :
  Contains (String c s) sub = HasPrefix (String c s) sub || Contains s sub.
Proof. reflexivity. Qed.

Lemma Contains_app_r s t sub : Contains t sub = true → Contains (s +:+ t) sub = true.
Proof.
  intros Ht. induction s as [|c s IH]; [done |].
  rewrite str_app_cons, Contains_cons, IH. apply orb_true_r.
Qed.

Lemma Contains_app_l s t sub : Contains s sub = true → Contains (s +:+ t) sub = true.
Proof.
  induction s as [|c s IH].
  - destruct sub; [by destruct t | done].
  - rewrite str_app_cons, !Contains_cons. intros [Hp | Hs]%orb_true_iff.
    + apply (HasPrefix_app_l _ t) in Hp. rewrite str_app_cons in Hp.
      by rewrite Hp.
    + rewrite (IH Hs). apply orb_true_r.
Qed.

Lemma Contains_refl s : Contains s s = true.
Proof.
  pose proof (HasPrefix_app s EmptyString) as Hp. rewrite str_app_nil_r in Hp.
  destruct s; [done | by rewrite Contains_cons, Hp].
Qed.

Lemma Contains_Join (elems : list string) sep s :
  s ∈ elems → Contains (Join elems sep) s = true.
Proof.
  induction elems as [|x elems IH]; [by intros ?%elem_of_nil |].
  intros [->|Hin]%elem_of_cons.
  - destruct elems as [|y elems]; simpl; [apply Contains_refl |].
    apply Contains_app_l, Contains_refl.
  - destruct elems as [|y elems]; [by apply elem_of_nil in Hin |].
    change (Join (x :: y :: elems) sep) with (x +:+ sep +:+ Join (y :: elems) sep).
    by apply Contains_app_r, Contains_app_r, IH.
Qed.

Lemma avoids_Join bad (elems : list string) sep :
  avoids bad sep = true →
  Forall (fun s => avoids bad s = true) elems →
  avoids bad (Join elems sep) = true.
Proof.
  intros Hsep. induction 1 as [|x elems Hx Helems IH]; [done |].
  destruct elems as [|y elems]; [done |].
  change (Join (x :: y :: elems) sep) with (x +:+ sep +:+ Join (y :: elems) sep).
  by rewrite !avoids_app, Hx, Hsep, IH.
Qed.

End ContainsFacts.

(** ** Lines whose prefix holds no percent sign *)

Section Lines.

Implicit Types (w : World) (dl : DefaultLog) (e : Env) (l : loc).

Lemma contextAvoids_rangeOrder bad seed (m : gmap string string) :
  contextAvoids bad m = true →
  Forall (fun kv => avoids bad kv.1 = true ∧ avoids bad kv.2 = true) (rangeOrder seed m).
Proof.
  unfold contextAvoids. rewrite forallb_forall. intros Hall.
  apply Forall_forall. intros kv Hin.
  rewrite rangeOrder_Permutation in Hin.
  apply andb_true_iff, Hall. by apply list_elem_of_In.
Qed.

Lemma tokens_avoid bad seed (m : gmap string string) :
  avoids bad "=" = true → avoids bad " " = true →
  contextAvoids bad m = true →
  avoids bad (GoStrings.Join (map token (rangeOrder seed m)) " ") = true.
Proof.
  intros Heq Hsp Hm. apply avoids_Join; [done |].
  apply Forall_map. eapply Forall_impl; [by apply contextAvoids_rangeOrder |].
  intros [k v] [Hk Hv]. unfold token. simpl in Hk, Hv |- *.
  by rewrite !avoids_app, Hk, Hv, Heq.
Qed.

Lemma linePrefix_avoids_percent e dl level :
  avoids [percent] level = true →
  avoids [percent] (callerSegment e dl) = true →
  contextAvoids [percent] (pairs dl) = true →
  avoids [percent] (linePrefix e dl level) = true.
Proof.
  intros Hlevel Hseg Hctx. unfold linePrefix.
  rewrite !avoids_app, RFC3339_avoids_percent, Hlevel, Hseg.
  by rewrite tokens_avoid.
Qed.

(** With no percent sign in the caller segment and in the context, the
    line is the prefix followed by the formatted message. *)
Lemma line_of_plain_prefix e dl level fmtStr args :
  avoids [percent] level = true →
  avoids [percent] (callerSegment e dl) = true →
  contextAvoids [percent] (pairs dl) = true →
  Sprintf (lineFormat e dl level fmtStr) args
  = linePrefix e dl level +:+ Sprintf (fmtStr +:+ nl) args.
Proof.
  intros Hlevel Hseg Hctx. unfold lineFormat.
  apply Sprintf_prefix. by apply linePrefix_avoids_percent.
Qed.

(** Every pair of the context has its token in the prefix. *)
Lemma linePrefix_Contains_token e dl level k v :
  pairs dl !! k = Some v →
  GoStrings.Contains (linePrefix e dl level) (token (k, v)) = true.
Proof.
  intros Hk. unfold linePrefix.
  do 5 apply Contains_app_r.
  apply Contains_Join. apply list_elem_of_fmap. exists (k, v). split; [done |].
  by apply elem_of_rangeOrder.
Qed.

End Lines.

(** ** What each level appends *)

Section Levels.

Implicit Types (w : World) (dl : DefaultLog) (e : Env) (l : loc).

Lemma lineFormat_unfold e dl level fmtStr :
  lineFormat e dl level fmtStr
  = GoTime.RFC3339 (now e) +:+ " |" +:+ level +:+ "| "
    +:+ (if enableDebug dl then callerWithLine e +:+ " " else EmptyString)
    +:+ GoStrings.Join (map token (rangeOrder (rangeSeed e) (pairs dl))) " "
    +:+ fmtStr +:+ nl.
Proof.
  unfold lineFormat, linePrefix, callerSegment. by rewrite !str_app_assoc.
Qed.

Lemma Infof_appended e l fmtStr args w dl :
  logs w !! l = Some dl →
  ∃ w', Infof e l fmtStr args w = Some w'
        ∧ appended w w' (output dl) (Sprintf (lineFormat e dl "INFO" fmtStr) args)
        ∧ logs w' = logs w.
Proof.
  intros Hl. eexists. split; [by apply Infof_spec |]. split.
  - apply printLevel_written.
  - apply printLevel_logs.
Qed.

Lemma Errorf_appended e l fmtStr args w dl :
  logs w !! l = Some dl →
  ∃ w', Errorf e l fmtStr args w = Some w'
        ∧ appended w w' (output dl) (Sprintf (lineFormat e dl "ERROR" fmtStr) args)
        ∧ logs w' = logs w.
Proof.
  intros Hl. eexists. split; [by apply Errorf_spec |]. split.
  - apply printLevel_written.
  - apply printLevel_logs.
Qed.

Lemma Debugf_appended e l fmtStr args w dl :
  logs w !! l = Some dl →
  enableDebug dl = true →
  ∃ w', Debugf e l fmtStr args w = Some w'
        ∧ appended w w' (output dl) (Sprintf (lineFormat e dl "DEBUG" fmtStr) args)
        ∧ logs w' = logs w.
Proof.
  intros Hl Hon. eexists. split; [by apply Debugf_spec |]. rewrite Hon. split.
  - apply printLevel_written.
  - apply printLevel_logs.
Qed.

Lemma contextAvoids_empty bad : contextAvoids bad ∅ = true.
Proof. unfold contextAvoids. by rewrite map_to_list_empty. Qed.

(** C1, as the code has it: the caller segment follows the debug flag of
    the logger, not the level.  [Infof] and [Errorf] append the text
    rendered from [<timestamp> |LEVEL| <caller><pairs><format>\n], where
    the caller segment [<file>#<line> ] is there when the logger has
    debug enabled and empty when it has not.  In particular a logger
    with debug enabled and no context, calling
    [Infof("hello %s", "world")] from a location rendered without a
    percent sign, appends
    [<timestamp> |INFO| <file>#<line> hello world\n]. *)
Theorem Infof_Errorf_caller_follows_debug_flag e l fmtStr args w dl :
  logs w !! l = Some dl →
  (∃ w', Infof e l fmtStr args w = Some w'
     ∧ appended w w' (output dl)
         (Sprintf
            (GoTime.RFC3339 (now e) +:+ " |INFO| "
             +:+ (if enableDebug dl then callerWithLine e +:+ " " else EmptyString)
             +:+ GoStrings.Join (map token (rangeOrder (rangeSeed e) (pairs dl))) " "
             +:+ fmtStr +:+ nl) args))
  ∧ (∃ w', Errorf e l fmtStr args w = Some w'
     ∧ appended w w' (output dl)
         (Sprintf
            (GoTime.RFC3339 (now e) +:+ " |ERROR| "
             +:+ (if enableDebug dl then callerWithLine e +:+ " " else EmptyString)
             +:+ GoStrings.Join (map token (rangeOrder (rangeSeed e) (pairs dl))) " "
             +:+ fmtStr +:+ nl) args))
  ∧ (enableDebug dl = true → pairs dl = ∅ →
     avoids [percent] (callerWithLine e) = true →
     ∃ w', Infof e l "hello %s" [AString "world"] w = Some w'
       ∧ appended w w' (output dl)
           (GoTime.RFC3339 (now e) +:+ " |INFO| " +:+ callerWithLine e
            +:+ " hello world" +:+ nl)).
Proof.
  intros Hl. split; [| split].
  - destruct (Infof_appended e l fmtStr args w dl Hl) as (w' & Hrun & Happ & _).
    exists w'. split; [done |]. by rewrite lineFormat_unfold in Happ.
  - destruct (Errorf_appended e l fmtStr args w dl Hl) as (w' & Hrun & Happ & _).
    exists w'. split; [done |]. by rewrite lineFormat_unfold in Happ.
  - intros Hon Hctx Hcaller.
    destruct (Infof_appended e l "hello %s" [AString "world"] w dl Hl)
      as (w' & Hrun & Happ & _).
    exists w'. split; [done |]. unfold appended in *. rewrite Happ. f_equal.
    rewrite line_of_plain_prefix.
    + unfold linePrefix, callerSegment. rewrite Hon, Hctx, rangeOrder_empty.
      simpl. by rewrite !str_app_assoc.
    + done.
    + unfold callerSegment. rewrite Hon. by rewrite avoids_app, Hcaller.
    + rewrite Hctx. apply contextAvoids_empty.
Qed.

Lemma Infof_Errorf_caller_follows_debug_flag_witness :
  (∃ w', Infof devEnv debugLog "hello %s" [AString "world"] debugWorld = Some w'
     ∧ appended debugWorld w' buffer
         (Sprintf
            (GoTime.RFC3339 noon +:+ " |INFO| "
             +:+ (callerWithLine devEnv +:+ " ")
             +:+ GoStrings.Join (map token (rangeOrder 0 ∅)) " "
             +:+ "hello %s" +:+ nl) [AString "world"]))
  ∧ (∃ w', Errorf devEnv debugLog "hello %s" [AString "world"] debugWorld = Some w'
     ∧ appended debugWorld w' buffer
         (Sprintf
            (GoTime.RFC3339 noon +:+ " |ERROR| "
             +:+ (callerWithLine devEnv +:+ " ")
             +:+ GoStrings.Join (map token (rangeOrder 0 ∅)) " "
             +:+ "hello %s" +:+ nl) [AString "world"]))
  ∧ (∃ w', Infof devEnv debugLog "hello %s" [AString "world"] debugWorld = Some w'
       ∧ appended debugWorld w' buffer
           (GoTime.RFC3339 noon +:+ " |INFO| " +:+ callerWithLine devEnv
            +:+ " hello world" +:+ nl)).
Proof.
  destruct (Infof_Errorf_caller_follows_debug_flag devEnv debugLog "hello %s"
              [AString "world"] debugWorld (mkDefaultLog ∅ true buffer))
    as (Hinfo & Herror & Hexample).
  - reflexivity.
  - split; [exact Hinfo |]. split; [exact Herror |].
    apply Hexample; reflexivity.
Defined.

(** C1 as the claim has it fails: with debug enabled, the line of
    [Infof("hello %s", "world")] has the caller segment between the
    level tag and the message. *)
Lemma Infof_debug_line_has_caller :
  ∃ w', Infof devEnv debugLog "hello %s" [AString "world"] debugWorld = Some w'
    ∧ written w' buffer
      = "2024-01-15T10:30:00Z |INFO| app/main.go#42 hello world" +:+ nl
    ∧ written w' buffer
      ≠ GoTime.RFC3339 (now devEnv) +:+ " |INFO| hello world" +:+ nl.
Proof.
  eexists. split; [reflexivity |]. split.
  - vm_compute. reflexivity.
  - vm_compute. discriminate.
Qed.

End Levels.

(** ** The separator between the pairs and the message *)

Section Separator.

Implicit Types (w : World) (dl : DefaultLog) (e : Env) (l : loc).

Lemma contextAvoids_singleton bad k v :
  contextAvoids bad {[k := v]} = avoids bad k && avoids bad v.
Proof.
  unfold contextAvoids. rewrite map_to_list_singleton. simpl. apply andb_true_r.
Qed.

(** C3, as the code has it: the message follows the last pair with no
    separator.  On a logger without context, after
    [With({"env": "test"})], [Errorf("boom")] appends exactly
    [<timestamp> |ERROR| <caller>env=testboom\n], where the caller segment
    [<file>#<line> ] is there when the logger has debug enabled (and is
    then free of percent signs) and empty when it has not. *)
Theorem Errorf_after_With_has_no_separator seed e l w dl :
  logs w !! l = Some dl →
  pairs dl = ∅ →
  (enableDebug dl = true → avoids [percent] (callerWithLine e) = true) →
  ∃ w1 w2, With seed l envTest w = Some (l, w1)
    ∧ Errorf e l "boom" [] w1 = Some w2
    ∧ appended w w2 (output dl)
        (GoTime.RFC3339 (now e) +:+ " |ERROR| "
         +:+ (if enableDebug dl then callerWithLine e +:+ " " else EmptyString)
         +:+ "env=testboom" +:+ nl).
Proof.
  intros Hl Hctx Hcaller.
  destruct (With_context seed l envTest w dl Hl) as (w1 & Hwith & Hl1 & _ & Hsinks & _).
  destruct (Errorf_appended e l "boom" [] w1 _ Hl1) as (w2 & Hrun & Happ & _).
  exists w1, w2. split; [done |]. split; [done |].
  unfold appended, written in *. simpl in Happ. rewrite Happ, Hsinks. f_equal.
  rewrite Hctx, (right_id_L ∅ (∪)).
  rewrite line_of_plain_prefix.
  - unfold linePrefix, callerSegment, envTest. simpl.
    rewrite rangeOrder_singleton. simpl.
    by rewrite !str_app_assoc.
  - done.
  - unfold callerSegment. simpl. destruct (enableDebug dl); [| done].
    by rewrite avoids_app, Hcaller.
  - simpl. unfold envTest. by rewrite contextAvoids_singleton.
Qed.

Lemma Errorf_after_With_has_no_separator_witness :
  ∃ w1 w2, With 0 quietLog envTest quietWorld = Some (quietLog, w1)
    ∧ Errorf devEnv quietLog "boom" [] w1 = Some w2
    ∧ appended quietWorld w2 buffer
        (GoTime.RFC3339 noon +:+ " |ERROR| " +:+ EmptyString +:+ "env=testboom" +:+ nl).
Proof.
  apply (Errorf_after_With_has_no_separator 0 devEnv quietLog quietWorld
           (mkDefaultLog ∅ false buffer)).
  - reflexivity.
  - reflexivity.
  - discriminate.
Defined.

(** C3 as the claim has it fails: there is no space between [env=test]
    and [boom]. *)
Lemma Errorf_boom_line_lacks_space :
  ∃ w1 w2, With 0 quietLog envTest quietWorld = Some (quietLog, w1)
    ∧ Errorf devEnv quietLog "boom" [] w1 = Some w2
    ∧ written w2 buffer = "2024-01-15T10:30:00Z |ERROR| env=testboom" +:+ nl
    ∧ written w2 buffer
      ≠ GoTime.RFC3339 (now devEnv) +:+ " |ERROR| env=test boom" +:+ nl
    ∧ GoStrings.Contains (written w2 buffer) "env=test boom" = false.
Proof.
  eexists. eexists. split; [evaluate |].
  split; [evaluate |].
  split; [evaluate |].
  split; [evaluate | evaluate].
Qed.

End Separator.

(** ** Caller resolution *)

Section Caller.

Import GoStrings.

Implicit Types (s old new : string) (e : Env).

Lemma str_length_app s t : String.length (s +:+ t) = (String.length s + String.length t)%nat.
Proof. induction s as [|c s IH]; [done |]. rewrite str_app_cons. simpl. by rewrite IH. Qed.

Lemma HasPrefix_longer s old :
  (String.length s < String.length old)%nat → HasPrefix s old = false.
Proof.
  revert old. induction s as [|c s IH]; intros [|d old] Hlen; simpl in Hlen; try lia.
  - done.
  - rewrite HasPrefix_cons, IH by lia. apply andb_false_r.
Qed.

Lemma replaceScan_cons old new c s :
  replaceScan old new 0 (String c s)
  = if HasPrefix (String c s) old
    then new +:+ replaceScan old new (String.length old - 1) s
    else String c (replaceScan old new 0 s).
Proof. reflexivity. Qed.

Lemma replaceScan_short old new s :
  (String.length s < String.length old)%nat → replaceScan old new 0 s = s.
Proof.
  induction s as [|c s IH]; intros Hlen; [done |].
  rewrite replaceScan_cons, HasPrefix_longer by done.
  simpl in Hlen. rewrite IH; [done | lia].
Qed.

(** A text shorter than the GOPATH source prefix is left as it is. *)
Lemma ReplaceAll_short s gopath :
  (String.length s < 5)%nat →
  ReplaceAll s (gopath +:+ "/src/") EmptyString = s.
Proof.
  intros Hlen. unfold ReplaceAll.
  destruct (gopath +:+ "/src/") as [|c old] eqn:Hold.
  { destruct gopath; discriminate Hold. }
  apply replaceScan_short. rewrite <- Hold, str_length_app. simpl. lia.
Qed.

(** With fewer than five frames on the stack the loop of [getFrame]
    never reaches the target index, and the frame it returns is the
    initial one: [Function] is ["unknown"], [File] is empty and [Line]
    is zero. *)
Lemma getFrame_short_stack (callStack : list Frame) :
  (length callStack ≤ 4)%nat →
  getFrame 2 callStack = mkFrame "unknown" EmptyString 0.
Proof.
  intros Hlen.
  destruct callStack as [|f0 [|f1 [|f2 [|f3 [|f4 rest]]]]];
    [reflexivity .. |].
  simpl in Hlen. lia.
Qed.

(** With five frames or more, it returns the frame at index four: the
    caller of [Debugf], [Infof] or [Errorf]. *)
Lemma getFrame_resolved f0 f1 f2 f3 f4 (rest : list Frame) :
  getFrame 2 (f0 :: f1 :: f2 :: f3 :: f4 :: rest) = f4.
Proof. by destruct rest as [|f5 rest]. Qed.

Lemma callerWithLine_short_stack e :
  (length (stack e) ≤ 4)%nat → callerWithLine e = "#0".
Proof.
  intros Hlen. unfold callerWithLine. rewrite getFrame_short_stack by done.
  cbn [File Line].
  change (EmptyString +:+ "#" +:+ GoStrconv.Itoa 0) with "#0".
  destruct (gopath e) as [g|]; [| done].
  apply ReplaceAll_short. simpl. lia.
Qed.


(** The same for every logger with debug enabled and every stack of
    fewer than five frames. *)
Lemma Debugf_short_stack_line e l fmtStr args w dl :
  logs w !! l = Some dl →
  enableDebug dl = true →
  (length (stack e) ≤ 4)%nat →
  ∃ w', Debugf e l fmtStr args w = Some w'
    ∧ appended w w' (output dl)
        (Sprintf
           (GoTime.RFC3339 (now e) +:+ " |DEBUG| #0 "
            +:+ Join (map token (rangeOrder (rangeSeed e) (pairs dl))) " "
            +:+ fmtStr +:+ nl) args).
Proof.
  intros Hl Hon Hlen.
  destruct (Debugf_appended e l fmtStr args w dl Hl Hon) as (w' & Hrun & Happ & _).
  exists w'. split; [done |].
  rewrite lineFormat_unfold, Hon, callerWithLine_short_stack in Happ by done.
  by rewrite !str_app_assoc in Happ.
Qed.

End Caller.

(** ** Context pairs in the lines *)

Section Tokens.

Import GoStrings.

Implicit Types (w : World) (dl : DefaultLog) (e : Env) (l : loc) (lv : Level).

Lemma logf_appended lv e l fmtStr args w dl :
  logs w !! l = Some dl →
  (lv = DEBUG → enableDebug dl = true) →
  ∃ w', logf lv e l fmtStr args w = Some w'
        ∧ appended w w' (output dl)
            (Sprintf (lineFormat e dl (levelName lv) fmtStr) args)
        ∧ logs w' = logs w.
Proof.
  intros Hl Hon. destruct lv; simpl.
  - apply Debugf_appended; auto.
  - by apply Infof_appended.
  - by apply Errorf_appended.
Qed.

Lemma levelName_avoids_percent lv : avoids [percent] (levelName lv) = true.
Proof. by destruct lv. Qed.

(** When neither the context nor the caller segment holds a percent
    sign, every pair of the context has its token in the line. *)
Lemma logf_line_Contains_token lv e l fmtStr args w dl k v :
  logs w !! l = Some dl →
  (lv = DEBUG → enableDebug dl = true) →
  contextAvoids [percent] (pairs dl) = true →
  avoids [percent] (callerSegment e dl) = true →
  pairs dl !! k = Some v →
  ∃ w' line, logf lv e l fmtStr args w = Some w'
    ∧ appended w w' (output dl) line
    ∧ Contains line (token (k, v)) = true.
Proof.
  intros Hl Hon Hctx Hseg Hk.
  destruct (logf_appended lv e l fmtStr args w dl Hl Hon) as (w' & Hrun & Happ & _).
  exists w', (Sprintf (lineFormat e dl (levelName lv) fmtStr) args).
  split; [done |]. split; [done |].
  rewrite line_of_plain_prefix by auto using levelName_avoids_percent.
  by apply Contains_app_l, linePrefix_Contains_token.
Qed.

(** [With] merges: the returned logger is the receiver, and its context
    maps every key of the argument to the argument's value and every
    other key to what it was mapped to before. *)
Lemma With_merges seed l (newEntries : gmap string string) w dl :
  logs w !! l = Some dl →
  ∃ w' dl', With seed l newEntries w = Some (l, w')
    ∧ logs w' !! l = Some dl'
    ∧ (∀ k v, newEntries !! k = Some v → pairs dl' !! k = Some v)
    ∧ (∀ k, newEntries !! k = None → pairs dl' !! k = pairs dl !! k).
Proof.
  intros Hl.
  destruct (With_context seed l newEntries w dl Hl) as (w' & Hwith & Hl' & _).
  eexists _, _. split; [done |]. split; [done |]. simpl. split.
  - intros k v Hk. by apply lookup_union_Some_l.
  - intros k Hk. by apply lookup_union_r.
Qed.

(** C5, evaluated on a value with a percent sign: a logger given
    [{"tier": "gold"}] and then [{"promo": "50%off"}].  The context of
    the returned logger holds both pairs, but [printLevel] puts the
    rendered pairs inside the format it hands to [fmt.Fprintf], which
    reads [%o] as a verb: the line of [Infof("done")] does not contain
    the token [promo=50%off]. *)
Theorem With_percent_value_not_in_line :
  ∃ w1 w2 w3,
    With 0 quietLog tierGold quietWorld = Some (quietLog, w1)
    ∧ With 0 quietLog promoHalf w1 = Some (quietLog, w2)
    ∧ pairs <$> logs w2 !! quietLog = Some (promoHalf ∪ tierGold)
    ∧ Infof devEnv quietLog "done" [] w2 = Some w3
    ∧ written w3 buffer
      = "2024-01-15T10:30:00Z |INFO| tier=gold promo=50%!o(MISSING)ffdone" +:+ nl
    ∧ Contains (written w3 buffer) (token ("promo", "50%off")) = false.
Proof.
  eexists _, _, _.
  split; [evaluate |].
  split; [evaluate |].
  split; [evaluate |].
  split; [evaluate |].
  split; evaluate.
Qed.

(** C9, evaluated on a value with a percent sign: [With] returns the
    logger it was called on, whose context now holds the pair, but the
    line emitted through the original reference does not contain the
    token [promo=50%off], for the reason given at C5. *)
Theorem With_base_percent_value_not_in_line :
  ∃ derived w1 w2,
    With 0 quietLog promoHalf quietWorld = Some (derived, w1)
    ∧ derived = quietLog
    ∧ pairs <$> logs w1 !! quietLog = Some promoHalf
    ∧ Infof devEnv quietLog "done" [] w1 = Some w2
    ∧ written w2 buffer
      = "2024-01-15T10:30:00Z |INFO| promo=50%!o(MISSING)ffdone" +:+ nl
    ∧ Contains (written w2 buffer) (token ("promo", "50%off")) = false.
Proof.
  eexists _, _, _.
  split; [evaluate |].
  split; [reflexivity |].
  split; [evaluate |].
  split; [evaluate |].
  split; evaluate.
Qed.

(** Without percent signs, the line emitted through the original
    reference after [With] has the token of every new pair. *)
Lemma With_base_line_Contains_token seed lv e l fmtStr args w dl
    (newEntries : gmap string string) k v :
  logs w !! l = Some dl →
  (lv = DEBUG → enableDebug dl = true) →
  contextAvoids [percent] (newEntries ∪ pairs dl) = true →
  avoids [percent] (callerSegment e dl) = true →
  newEntries !! k = Some v →
  ∃ w1 w2 line, With seed l newEntries w = Some (l, w1)
    ∧ logf lv e l fmtStr args w1 = Some w2
    ∧ appended w1 w2 (output dl) line
    ∧ Contains line (token (k, v)) = true.
Proof.
  intros Hl Hon Hctx Hseg Hk.
  destruct (With_context seed l newEntries w dl Hl) as (w1 & Hwith & Hl1 & _).
  destruct (logf_line_Contains_token lv e l fmtStr args w1 _ k v Hl1)
    as (w2 & line & Hrun & Happ & Hin); try done.
  { simpl. by apply lookup_union_Some_l. }
  by exists w1, w2, line.
Qed.

(** C2, as the code has it: [With] creates no logger.  Two [With] calls
    on one base both return the base itself, whose context then holds
    the entries of both mappings on top of its earlier pairs; when that
    context and the caller segment hold no percent sign, every line
    emitted afterwards through either returned logger has the token of
    every key of both mappings. *)
Theorem With_twice_is_one_logger seed1 seed2 l w dl (P1 P2 : gmap string string) :
  logs w !! l = Some dl →
  P1 ##ₘ P2 →
  ∃ w1 w2,
    With seed1 l P1 w = Some (l, w1)
    ∧ With seed2 l P2 w1 = Some (l, w2)
    ∧ pairs <$> logs w2 !! l = Some (P1 ∪ P2 ∪ pairs dl)
    ∧ ∀ lv e fmtStr args k v,
        (lv = DEBUG → enableDebug dl = true) →
        contextAvoids [percent] (P1 ∪ P2 ∪ pairs dl) = true →
        avoids [percent] (callerSegment e dl) = true →
        (P1 ∪ P2) !! k = Some v →
        ∃ w3 line, logf lv e l fmtStr args w2 = Some w3
          ∧ appended w2 w3 (output dl) line
          ∧ Contains line (token (k, v)) = true.
Proof.
  intros Hl Hdisj.
  destruct (With_context seed1 l P1 w dl Hl) as (w1 & Hwith1 & Hl1 & _).
  destruct (With_context seed2 l P2 w1 _ Hl1) as (w2 & Hwith2 & Hl2 & _).
  simpl in Hl2.
  assert (P2 ∪ (P1 ∪ pairs dl) = P1 ∪ P2 ∪ pairs dl) as Hunion.
  { rewrite (assoc_L (∪)). f_equal. by apply map_union_comm. }
  rewrite Hunion in Hl2.
  exists w1, w2. split; [done |]. split; [done |]. split.
  { by rewrite Hl2. }
  intros lv e fmtStr args k v Hon Hctx Hseg Hk.
  apply (logf_line_Contains_token lv e l fmtStr args w2 _ k v Hl2); try done.
  simpl. by apply lookup_union_Some_l.
Qed.

Lemma With_twice_is_one_logger_witness :
  ∃ w1 w2,
    With 0 quietLog userAnn quietWorld = Some (quietLog, w1)
    ∧ With 1 quietLog jobSync w1 = Some (quietLog, w2)
    ∧ pairs <$> logs w2 !! quietLog = Some (userAnn ∪ jobSync ∪ ∅)
    ∧ ∃ w3 line, logf INFO devEnv quietLog "x" [] w2 = Some w3
        ∧ appended w2 w3 buffer line
        ∧ Contains line (token ("job", "sync")) = true.
Proof.
  destruct (With_twice_is_one_logger 0 1 quietLog quietWorld
              (mkDefaultLog ∅ false buffer) userAnn jobSync)
    as (w1 & w2 & Hwith1 & Hwith2 & Hctx & Hlines).
  - reflexivity.
  - apply map_disjoint_singleton_l_2. reflexivity.
  - exists w1, w2. split; [exact Hwith1 |]. split; [exact Hwith2 |].
    split; [exact Hctx |].
    apply Hlines.
    + discriminate.
    + vm_compute. reflexivity.
    + reflexivity.
    + vm_compute. reflexivity.
Defined.

(** C2 as the claim has it fails: the keys [user] and [job] are
    distinct, yet the logger returned by the first [With] is the one
    returned by the second, and the line it emits has the token of
    [job], a key of the second mapping only. *)
Lemma With_siblings_share_context :
  ∃ first second w1 w2 w3,
    With 0 quietLog userAnn quietWorld = Some (first, w1)
    ∧ With 0 quietLog jobSync w1 = Some (second, w2)
    ∧ first = second
    ∧ userAnn !! "job" = None
    ∧ Infof devEnv first "x" [] w2 = Some w3
    ∧ written w3 buffer = "2024-01-15T10:30:00Z |INFO| user=ann job=syncx" +:+ nl
    ∧ Contains (written w3 buffer) (token ("job", "sync")) = true.
Proof.
  eexists _, _, _, _, _.
  split; [evaluate |].
  split; [evaluate |].
  split; [reflexivity |].
  split; [evaluate |].
  split; [evaluate |].
  split; evaluate.
Qed.

End Tokens.

(** ** The shape of a line *)

Section Shape.

Import GoStrings.

Implicit Types (s t body rest : string) (w : World) (dl : DefaultLog) (e : Env)
  (l : loc) (lv : Level).



(** *** The final newline *)



(** *** The level tag *)






End Shape.

Section ShapeOfEmittedLines.

Import GoStrings.

Implicit Types (w : World) (dl : DefaultLog) (e : Env) (l : loc) (lv : Level).





End ShapeOfEmittedLines.

(* ===================================================================== *)
(** * Part III: further properties of the package                         *)
(* ===================================================================== *)

(** ** Construction and options *)

Section Construction.

Implicit Types (w : World) (dl : DefaultLog) (opts : list Option).

Lemma applyOptions_pairs opts dl :
  pairs (foldl (fun dl opt => applyOption opt dl) dl opts) = pairs dl.
Proof.
  revert dl. induction opts as [|[|out] opts IH]; intros dl; simpl; [done | ..];
    by rewrite IH.
Qed.

Lemma applyOptions_enableDebug opts dl :
  enableDebug (foldl (fun dl opt => applyOption opt dl) dl opts) = true
  ↔ enableDebug dl = true ∨ WithDebugEnabled ∈ opts.
Proof.
  revert dl. induction opts as [|[|out] opts IH]; intros dl; simpl.
  - split; [by left | intros [H | H%elem_of_nil]; done].
  - rewrite IH. simpl. split; [intros _; right; left | by left].
  - rewrite IH. simpl. split.
    + intros [H | H]; [by left | right; by right].
    + intros [H | [H | H]%elem_of_cons]; [by left | done | by right].
Qed.

Lemma applyOptions_output_kept opts dl :
  Forall (fun opt => opt = WithDebugEnabled) opts →
  output (foldl (fun dl opt => applyOption opt dl) dl opts) = output dl.
Proof.
  intros Hopts. revert dl.
  induction Hopts as [|opt opts -> _ IH]; intros dl; simpl; [done |].
  by rewrite IH.
Qed.

(** X1: [NewDefaultLog] allocates a pointer that held no logger.  The
    new logger has an empty context, and debug enabled exactly when
    [WithDebugEnabled] is among the options (an option cannot turn debug
    off again).  The loggers already in the store, the bytes of every
    writer and the count of [fmt] calls are as before. *)
Theorem NewDefaultLog_allocates opts w :
  logs w !! (NewDefaultLog opts w).1 = None
  ∧ (∃ dl, logs (NewDefaultLog opts w).2 !! (NewDefaultLog opts w).1 = Some dl
       ∧ pairs dl = ∅
       ∧ (enableDebug dl = true ↔ WithDebugEnabled ∈ opts))
  ∧ (∀ l', l' ≠ (NewDefaultLog opts w).1 →
       logs (NewDefaultLog opts w).2 !! l' = logs w !! l')
  ∧ sinks (NewDefaultLog opts w).2 = sinks w
  ∧ fmtCalls (NewDefaultLog opts w).2 = fmtCalls w.
Proof.
  split; [apply NewDefaultLog_fresh |]. split.
  - eexists. split; [apply NewDefaultLog_lookup |]. split.
    + by rewrite applyOptions_pairs.
    + rewrite applyOptions_enableDebug. simpl.
      split; [intros [H | H]; done | by right].
  - split; [| done]. intros l' Hne. simpl. by rewrite lookup_insert_ne.
Qed.

(** X2: options apply in the order given, and the last [WithOutput]
    decides the writer: when only [WithDebugEnabled] options follow
    [WithOutput(out)], the new logger writes to [out], whatever
    precedes. *)
Theorem NewDefaultLog_last_output_wins (pre post : list Option) out w :
  Forall (fun opt => opt = WithDebugEnabled) post →
  output <$> logs (NewDefaultLog (pre ++ WithOutput out :: post) w).2
               !! (NewDefaultLog (pre ++ WithOutput out :: post) w).1
  = Some out.
Proof.
  intros Hpost. rewrite NewDefaultLog_lookup. simpl. f_equal.
  rewrite foldl_app. simpl. by rewrite applyOptions_output_kept.
Qed.

Lemma NewDefaultLog_last_output_wins_witness :
  output <$> logs (NewDefaultLog
                     ([WithOutput (External 1); WithDebugEnabled]
                      ++ WithOutput buffer :: [WithDebugEnabled]) emptyWorld).2
               !! (NewDefaultLog
                     ([WithOutput (External 1); WithDebugEnabled]
                      ++ WithOutput buffer :: [WithDebugEnabled]) emptyWorld).1
  = Some buffer.
Proof.
  apply (NewDefaultLog_last_output_wins
           [WithOutput (External 1); WithDebugEnabled] [WithDebugEnabled]
           buffer emptyWorld).
  repeat constructor.
Defined.

(** X3: without a [WithOutput] option, the new logger writes to a
    buffered writer of its own: one that no logger already in the store
    has as its default writer. *)
Theorem NewDefaultLog_default_output opts w :
  Forall (fun opt => opt = WithDebugEnabled) opts →
  output <$> logs (NewDefaultLog opts w).2 !! (NewDefaultLog opts w).1
  = Some (BufStdout (NewDefaultLog opts w).1)
  ∧ ∀ l' dl', logs w !! l' = Some dl' →
      BufStdout l' ≠ BufStdout (NewDefaultLog opts w).1.
Proof.
  intros Hopts. split.
  - rewrite NewDefaultLog_lookup. simpl. f_equal.
    by rewrite applyOptions_output_kept.
  - intros l' dl' Hl' [= Heq].
    pose proof (NewDefaultLog_fresh opts w) as Hfresh.
    simpl in Heq, Hfresh. rewrite <- Heq in Hfresh. congruence.
Qed.

Lemma NewDefaultLog_default_output_witness :
  output <$> logs (NewDefaultLog [WithDebugEnabled] quietWorld).2
               !! (NewDefaultLog [WithDebugEnabled] quietWorld).1
  = Some (BufStdout (NewDefaultLog [WithDebugEnabled] quietWorld).1)
  ∧ ∀ l' dl', logs quietWorld !! l' = Some dl' →
      BufStdout l' ≠ BufStdout (NewDefaultLog [WithDebugEnabled] quietWorld).1.
Proof.
  apply (NewDefaultLog_default_output [WithDebugEnabled] quietWorld).
  repeat constructor.
Defined.

End Construction.

(** ** [With] as an operation on contexts *)

Section WithAlgebra.

Implicit Types (w : World) (dl : DefaultLog) (l : loc) (P Q : gmap string string).

(** X4: [With] returns its receiver and changes nothing but the context
    of the receiver: there, every key of the argument is mapped to the
    argument's value and every other key keeps what it was mapped to.
    The other loggers, the bytes of every writer and the count of [fmt]
    calls are as before. *)
Theorem With_updates_receiver_only seed l P w dl :
  logs w !! l = Some dl →
  ∃ w' dl', With seed l P w = Some (l, w')
    ∧ logs w' !! l = Some dl'
    ∧ (∀ k v, P !! k = Some v → pairs dl' !! k = Some v)
    ∧ (∀ k, P !! k = None → pairs dl' !! k = pairs dl !! k)
    ∧ (∀ l', l' ≠ l → logs w' !! l' = logs w !! l')
    ∧ sinks w' = sinks w
    ∧ fmtCalls w' = fmtCalls w.
Proof.
  intros Hl.
  destruct (With_context seed l P w dl Hl) as (w' & Hwith & Hl' & Hothers & Hs & Hf).
  eexists _, _. split; [done |]. split; [done |]. simpl.
  split; [| split]; [| | done].
  - intros k v Hk. by apply lookup_union_Some_l.
  - intros k Hk. by apply lookup_union_r.
Qed.

Lemma With_updates_receiver_only_witness :
  ∃ w' dl', With 2 debugLog envTest debugWorld = Some (debugLog, w')
    ∧ logs w' !! debugLog = Some dl'
    ∧ (∀ k v, envTest !! k = Some v → pairs dl' !! k = Some v)
    ∧ (∀ k, envTest !! k = None → pairs dl' !! k = (∅ : gmap string string) !! k)
    ∧ (∀ l', l' ≠ debugLog → logs w' !! l' = logs debugWorld !! l')
    ∧ sinks w' = sinks debugWorld
    ∧ fmtCalls w' = fmtCalls debugWorld.
Proof.
  apply (With_updates_receiver_only 2 debugLog envTest debugWorld
           (mkDefaultLog ∅ true buffer)).
  reflexivity.
Defined.

(** X5: the result of [With] does not depend on the order in which its
    [range] visits the argument. *)
Theorem With_order_independent seed seed' l P w :
  With seed l P w = With seed' l P w.
Proof.
  unfold With. destruct (logs w !! l) as [dl|]; [| done]. simpl.
  by rewrite !With_loop.
Qed.

(** X6: two [With] calls in a row do what one call does with the union
    of the two mappings in which the second mapping wins; so repeating a
    [With] call changes nothing more. *)
Theorem With_composes seed1 seed2 seed l P Q w :
  (With seed1 l P w ≫= fun r => With seed2 r.1 Q r.2)
  = With seed l (Q ∪ P) w
  ∧ (With seed1 l P w ≫= fun r => With seed2 r.1 P r.2)
    = With seed l P w.
Proof.
  assert (∀ P Q, (With seed1 l P w ≫= fun r => With seed2 r.1 Q r.2)
                  = With seed l (Q ∪ P) w) as Hcomp.
  { clear P Q. intros P Q. destruct (logs w !! l) as [dl|] eqn:Hl.
    - rewrite !(With_spec _ _ _ _ _ Hl). simpl.
      erewrite With_spec by (simpl; apply lookup_insert_eq).
      simpl. by rewrite insert_insert_eq, (assoc_L (∪)).
    - unfold With. by rewrite Hl. }
  split; [apply Hcomp |].
  rewrite Hcomp. by rewrite (idemp_L (∪)).
Qed.

End WithAlgebra.

(** ** The caller of a log call *)

Section CallerResolution.

Import GoStrings.

Implicit Types (e : Env) (frames callStack : list Frame) (old new s : string).

Lemma frameLoop_cons (cand : Frame) (rest : list Frame) frameIndex targetFrameIndex frame :
  frameLoop (cand :: rest) frameIndex targetFrameIndex frame
  = if (frameIndex <=? targetFrameIndex)%nat then
      if negb (bool_decide (rest = []))
      then frameLoop rest (S frameIndex) targetFrameIndex
             (if (frameIndex =? targetFrameIndex)%nat then cand else frame)
      else if (frameIndex =? targetFrameIndex)%nat then cand else frame
    else frame.
Proof. reflexivity. Qed.

Lemma frameLoop_lookup frames frameIndex targetFrameIndex frame :
  frames ≠ [] →
  (frameIndex ≤ targetFrameIndex)%nat →
  frameLoop frames frameIndex targetFrameIndex frame
  = default frame (frames !! (targetFrameIndex - frameIndex)%nat).
Proof.
  revert frameIndex frame.
  induction frames as [|cand rest IH]; intros idx frame Hne Hle; [done |].
  rewrite frameLoop_cons, (proj2 (Nat.leb_le _ _) Hle).
  destruct (Nat.eqb_spec idx targetFrameIndex) as [->|Hlt].
  - rewrite Nat.sub_diag. simpl default.
    destruct rest as [|cand' rest]; [done |].
    rewrite bool_decide_eq_false_2 by done. simpl negb.
    rewrite frameLoop_cons. by rewrite (proj2 (Nat.leb_gt _ _)) by lia.
  - replace (targetFrameIndex - idx)%nat with (S (targetFrameIndex - S idx)) by lia.
    destruct rest as [|cand' rest]; [done |].
    rewrite bool_decide_eq_false_2 by done. simpl negb.
    rewrite IH; [done | done | lia].
Qed.

(** X7: [getFrame(skipFrames)] returns the frame at index
    [skipFrames + 2] of the call stack, and the frame whose function is
    ["unknown"], with an empty file and line zero, when the stack is
    not that deep.  For the [getFrame(2)] of [printLevel] this is index
    four: below [runtime.Callers], [getFrame], [printLevel] and the
    method that was called. *)
Theorem getFrame_spec (skipFrames : nat) callStack :
  getFrame skipFrames callStack
  = default (mkFrame "unknown" EmptyString 0) (callStack !! (skipFrames + 2)%nat).
Proof.
  unfold getFrame, Callers.
  destruct callStack as [|f callStack].
  - by rewrite firstn_nil.
  - replace (skipFrames + 2 + 2)%nat with (S (skipFrames + 3)) by lia.
    rewrite firstn_cons.
    change (0 <? length (f :: firstn (skipFrames + 3) callStack))%nat with true.
    cbv iota. rewrite frameLoop_lookup by (done || lia).
    rewrite Nat.sub_0_r.
    change (f :: firstn (skipFrames + 3) callStack)
      with (take (S (skipFrames + 3)) (f :: callStack)).
    by rewrite lookup_take_lt by lia.
Qed.

Lemma replaceScan_no_occurrence old new s :
  Contains s old = false → replaceScan old new 0 s = s.
Proof.
  induction s as [|c s IH]; [done |].
  rewrite Contains_cons. intros [Hp Hs]%orb_false_iff.
  by rewrite replaceScan_cons, Hp, IH.
Qed.

Lemma replaceScan_skip old new (pre rest : string) :
  replaceScan old new (String.length pre) (pre +:+ rest) = replaceScan old new 0 rest.
Proof. induction pre as [|c pre IH]; [done |]. rewrite str_app_cons. apply IH. Qed.

(** Removing a non-empty [old] from a text that starts with it and has
    no other occurrence leaves the rest of the text. *)
Lemma ReplaceAll_prefix old (rest : string) :
  old ≠ EmptyString →
  Contains rest old = false →
  ReplaceAll (old +:+ rest) old EmptyString = rest.
Proof.
  intros Hold Hrest. destruct old as [|c old]; [done |].
  unfold ReplaceAll. rewrite str_app_cons, replaceScan_cons.
  assert (HasPrefix (String c (old +:+ rest)) (String c old) = true) as ->.
  { rewrite HasPrefix_cons, HasPrefix_app. by rewrite bool_decide_eq_true_2. }
  rewrite str_app_nil_l.
  replace (String.length (String c old) - 1)%nat with (String.length old)
    by (simpl; lia).
  rewrite replaceScan_skip.
  by apply replaceScan_no_occurrence.
Qed.

Lemma ReplaceAll_no_occurrence s old new :
  old ≠ EmptyString → Contains s old = false → ReplaceAll s old new = s.
Proof.
  intros Hold Hs. destruct old as [|c old]; [done |].
  by apply replaceScan_no_occurrence.
Qed.

Lemma GOPATH_prefix_nonempty (g : string) : g +:+ "/src/" ≠ EmptyString.
Proof. by destruct g. Qed.

Lemma callerWithLine_resolved e (caller : Frame) :
  stack e !! 4%nat = Some caller →
  callerWithLine e
  = match gopath e with
    | Some g =>
      ReplaceAll (File caller +:+ "#" +:+ GoStrconv.Itoa (Line caller))
        (g +:+ "/src/") EmptyString
    | None => File caller +:+ "#" +:+ GoStrconv.Itoa (Line caller)
    end.
Proof.
  intros Hcaller. unfold callerWithLine.
  rewrite getFrame_spec. change (2 + 2)%nat with 4%nat. by rewrite Hcaller.
Qed.

(** X8: with GOPATH set, a caller whose file lies under [$GOPATH/src/]
    is rendered relative to that directory: when the file is
    [$GOPATH/src/] followed by [rel], and [rel#line] does not contain
    [$GOPATH/src/] again, the caller is rendered as [rel#line]. *)
Theorem callerWithLine_strips_GOPATH e (caller : Frame) (g rel : string) :
  stack e !! 4%nat = Some caller →
  gopath e = Some g →
  File caller = g +:+ "/src/" +:+ rel →
  Contains (rel +:+ "#" +:+ GoStrconv.Itoa (Line caller)) (g +:+ "/src/") = false →
  callerWithLine e = rel +:+ "#" +:+ GoStrconv.Itoa (Line caller).
Proof.
  intros Hcaller Hg Hfile Hrel.
  rewrite (callerWithLine_resolved _ _ Hcaller), Hg, Hfile.
  rewrite <- (str_app_assoc g "/src/"), str_app_assoc.
  apply ReplaceAll_prefix; [apply GOPATH_prefix_nonempty | done].
Qed.

Lemma callerWithLine_strips_GOPATH_witness :
  callerWithLine devEnv = "app/main.go" +:+ "#" +:+ GoStrconv.Itoa 42.
Proof.
  apply (callerWithLine_strips_GOPATH devEnv
           (mkFrame "main.main" "/home/dev/go/src/app/main.go" 42)
           "/home/dev/go" "app/main.go").
  - reflexivity.
  - reflexivity.
  - reflexivity.
  - vm_compute. reflexivity.
Defined.

(** X9: the caller is rendered as its file and line, unchanged, when
    GOPATH is not set, and when it is set but [$GOPATH/src/] does not
    occur in the rendering. *)
Theorem callerWithLine_keeps_path e (caller : Frame) :
  stack e !! 4%nat = Some caller →
  (∀ g, gopath e = Some g →
        Contains (File caller +:+ "#" +:+ GoStrconv.Itoa (Line caller))
                 (g +:+ "/src/") = false) →
  callerWithLine e = File caller +:+ "#" +:+ GoStrconv.Itoa (Line caller).
Proof.
  intros Hcaller Hg. rewrite (callerWithLine_resolved _ _ Hcaller).
  destruct (gopath e) as [g|]; [| done].
  apply ReplaceAll_no_occurrence; [apply GOPATH_prefix_nonempty | by apply Hg].
Qed.

Lemma callerWithLine_keeps_path_witness :
  callerWithLine elsewhereEnv
  = "/home/dev/go/src/app/main.go" +:+ "#" +:+ GoStrconv.Itoa 42.
Proof.
  apply (callerWithLine_keeps_path elsewhereEnv
           (mkFrame "main.main" "/home/dev/go/src/app/main.go" 42)).
  - reflexivity.
  - intros g Hg. injection Hg as <-. vm_compute. reflexivity.
Defined.

End CallerResolution.

(** ** What a log call reads and writes *)

Section LogCalls.

Import GoStrings.

Implicit Types (w : World) (dl : DefaultLog) (e : Env) (l : loc) (lv : Level).

Lemma Itoa_avoids_percent (i : Z) : avoids [percent] (GoStrconv.Itoa i) = true.
Proof.
  apply avoids_special_percent. unfold GoStrconv.Itoa, NilZero.string_of_int.
  destruct (Z.to_int i) as [d|d].
  - unfold NilZero.string_of_uint.
    destruct d; [done | ..]; apply string_of_uint_avoids_special.
  - rewrite avoids_cons. unfold NilZero.string_of_uint.
    destruct d; [done | ..]; apply string_of_uint_avoids_special.
Qed.

(** X10: a debug line names the call site.  On a logger with debug
    enabled, when the stack has the caller of [Debugf] at index four,
    GOPATH is unset or does not occur in the caller's rendering, and
    neither the caller's file nor the context holds a percent sign,
    [Debugf] appends the timestamp, [|DEBUG|], the caller's file, [#],
    the caller's line, a space, the pairs, and the formatted message. *)
Theorem Debugf_line_names_call_site e l fmtStr args w dl (caller : Frame) :
  logs w !! l = Some dl →
  enableDebug dl = true →
  stack e !! 4%nat = Some caller →
  (∀ g, gopath e = Some g →
        Contains (File caller +:+ "#" +:+ GoStrconv.Itoa (Line caller))
                 (g +:+ "/src/") = false) →
  avoids [percent] (File caller) = true →
  contextAvoids [percent] (pairs dl) = true →
  ∃ w', Debugf e l fmtStr args w = Some w'
    ∧ appended w w' (output dl)
        (GoTime.RFC3339 (now e) +:+ " |DEBUG| "
         +:+ File caller +:+ "#" +:+ GoStrconv.Itoa (Line caller) +:+ " "
         +:+ Join (map token (rangeOrder (rangeSeed e) (pairs dl))) " "
         +:+ Sprintf (fmtStr +:+ nl) args).
Proof.
  intros Hl Hon Hcaller Hg Hfile Hctx.
  destruct (Debugf_appended e l fmtStr args w dl Hl Hon) as (w' & Hrun & Happ & _).
  exists w'. split; [done |]. unfold appended in *. rewrite Happ. f_equal.
  assert (callerWithLine e
          = File caller +:+ "#" +:+ GoStrconv.Itoa (Line caller)) as Hrender.
  { rewrite (callerWithLine_resolved _ _ Hcaller).
    destruct (gopath e) as [g|]; [| done].
    apply ReplaceAll_no_occurrence; [by destruct g | by apply Hg]. }
  rewrite line_of_plain_prefix; [| done | | done].
  - unfold linePrefix, callerSegment. rewrite Hon, Hrender.
    by rewrite !str_app_assoc.
  - unfold callerSegment. rewrite Hon, Hrender.
    by rewrite !avoids_app, Hfile, Itoa_avoids_percent.
Qed.

Lemma Debugf_line_names_call_site_witness :
  ∃ w', Debugf elsewhereEnv debugLog "n=%d" [AInt 3] debugWorld = Some w'
    ∧ appended debugWorld w' buffer
        (GoTime.RFC3339 noon +:+ " |DEBUG| "
         +:+ "/home/dev/go/src/app/main.go" +:+ "#" +:+ GoStrconv.Itoa 42 +:+ " "
         +:+ Join (map token (rangeOrder 3 ∅)) " "
         +:+ Sprintf ("n=%d" +:+ nl) [AInt 3]).
Proof.
  apply (Debugf_line_names_call_site elsewhereEnv debugLog "n=%d" [AInt 3]
           debugWorld (mkDefaultLog ∅ true buffer)
           (mkFrame "main.main" "/home/dev/go/src/app/main.go" 42)).
  - reflexivity.
  - reflexivity.
  - reflexivity.
  - intros g Hg. injection Hg as <-. vm_compute. reflexivity.
  - reflexivity.
  - reflexivity.
Defined.

(** X11: a log call at any level changes no logger (no context, flag or
    writer), and writes to no writer but the receiver's. *)
Theorem logging_writes_only_to_own_writer lv e l fmtStr args w dl :
  logs w !! l = Some dl →
  ∃ w', logf lv e l fmtStr args w = Some w'
    ∧ logs w' = logs w
    ∧ ∀ out, out ≠ output dl → written w' out = written w out.
Proof.
  intros Hl. destruct lv; simpl.
  - rewrite (Debugf_spec _ _ _ _ _ _ Hl). eexists. split; [done |].
    destruct (enableDebug dl); [| done]. split; [apply printLevel_logs |].
    intros out Hne. by apply printLevel_written_ne.
  - rewrite (Infof_spec _ _ _ _ _ _ Hl). eexists. split; [done |].
    split; [apply printLevel_logs |].
    intros out Hne. by apply printLevel_written_ne.
  - rewrite (Errorf_spec _ _ _ _ _ _ Hl). eexists. split; [done |].
    split; [apply printLevel_logs |].
    intros out Hne. by apply printLevel_written_ne.
Qed.

Lemma logging_writes_only_to_own_writer_witness :
  ∃ w', logf ERROR devEnv debugLog "boom" [] debugWorld = Some w'
    ∧ logs w' = logs debugWorld
    ∧ ∀ out, out ≠ buffer → written w' out = written debugWorld out.
Proof.
  apply (logging_writes_only_to_own_writer ERROR devEnv debugLog "boom" []
           debugWorld (mkDefaultLog ∅ true buffer)).
  reflexivity.
Defined.

(** X12: on a logger with debug disabled, a log call reads neither the
    call stack nor GOPATH: two environments with the same clock and the
    same iteration order give the same result. *)
Theorem quiet_logger_ignores_stack_and_GOPATH lv e e' l fmtStr args w dl :
  logs w !! l = Some dl →
  enableDebug dl = false →
  now e = now e' →
  rangeSeed e = rangeSeed e' →
  logf lv e l fmtStr args w = logf lv e' l fmtStr args w.
Proof.
  intros Hl Hoff Hnow Hseed.
  assert (∀ level, printLevel e dl level fmtStr args w
                   = printLevel e' dl level fmtStr args w) as Hprint.
  { intros level. unfold printLevel. by rewrite Hoff, Hnow, Hseed. }
  destruct lv; simpl.
  - by rewrite !(Debugf_spec _ _ _ _ _ _ Hl), Hoff.
  - by rewrite !(Infof_spec _ _ _ _ _ _ Hl), Hprint.
  - by rewrite !(Errorf_spec _ _ _ _ _ _ Hl), Hprint.
Qed.

Lemma quiet_logger_ignores_stack_and_GOPATH_witness :
  logf INFO devEnv quietLog "up" [] quietWorld
  = logf INFO bareEnv quietLog "up" [] quietWorld.
Proof.
  apply (quiet_logger_ignores_stack_and_GOPATH INFO devEnv bareEnv quietLog "up" []
           quietWorld (mkDefaultLog ∅ false buffer)).
  - reflexivity.
  - reflexivity.
  - reflexivity.
  - reflexivity.
Defined.

(** X13: the pairs of a line are the pairs of the context, each
    rendered once as [key=value], in some order: the tokens joined into
    the line are a permutation of the tokens of the context's entries. *)
Theorem line_has_one_token_per_pair lv e l fmtStr args w dl :
  logs w !! l = Some dl →
  (lv = DEBUG → enableDebug dl = true) →
  ∃ w' tokens, logf lv e l fmtStr args w = Some w'
    ∧ tokens ≡ₚ token <$> map_to_list (pairs dl)
    ∧ length tokens = size (pairs dl)
    ∧ appended w w' (output dl)
        (Sprintf
           (GoTime.RFC3339 (now e) +:+ " |" +:+ levelName lv +:+ "| "
            +:+ callerSegment e dl +:+ Join tokens " " +:+ fmtStr +:+ nl) args).
Proof.
  intros Hl Hon.
  destruct (logf_appended lv e l fmtStr args w dl Hl Hon) as (w' & Hrun & Happ & _).
  exists w', (token <$> rangeOrder (rangeSeed e) (pairs dl)).
  split; [done |]. split; [by rewrite rangeOrder_Permutation |]. split.
  - by rewrite length_fmap, rangeOrder_Permutation, length_map_to_list.
  - unfold lineFormat, linePrefix in Happ. by rewrite !str_app_assoc in Happ.
Qed.

Lemma line_has_one_token_per_pair_witness :
  ∃ w' tokens, logf ERROR devEnv quietLog "boom" [] taggedWorld = Some w'
    ∧ tokens ≡ₚ token <$> map_to_list (pairs taggedLog)
    ∧ length tokens = size (pairs taggedLog)
    ∧ appended taggedWorld w' (output taggedLog)
        (Sprintf
           (GoTime.RFC3339 (now devEnv) +:+ " |" +:+ levelName ERROR +:+ "| "
            +:+ callerSegment devEnv taggedLog +:+ Join tokens " "
            +:+ "boom" +:+ nl) []).
Proof.
  refine (line_has_one_token_per_pair ERROR devEnv quietLog "boom" [] taggedWorld
            taggedLog _ _).
  - vm_compute. reflexivity.
  - discriminate.
Defined.

End LogCalls.

(** ** Sequences of calls *)

Section Sequences.

Implicit Types (w : World) (dl : DefaultLog) (l : loc) (c : Call) (cs : list Call).

Lemma written_same_sinks w w' out : sinks w' = sinks w → written w' out = written w out.
Proof. unfold written. by intros ->. Qed.

Lemma printLevel_appends e dl level fmtStr args w out :
  ∃ suffix, written (printLevel e dl level fmtStr args w) out
            = written w out +:+ suffix.
Proof.
  destruct (decide (output dl = out)) as [<-|Hne].
  - eexists. apply printLevel_written.
  - exists EmptyString. by rewrite printLevel_written_ne, str_app_nil_r.
Qed.

Lemma exec_appends c w w' out :
  exec c w = Some w' → ∃ suffix, written w' out = written w out +:+ suffix.
Proof.
  intros Hc.
  destruct c as [opts|seed l0 newEntries|e l0 f a|e l0 f a|e l0 f a]; simpl in Hc.
  - injection Hc as <-. exists EmptyString. by rewrite str_app_nil_r.
  - destruct (logs w !! l0) as [dl0|] eqn:Hl0.
    2:{ unfold With in Hc. by rewrite Hl0 in Hc. }
    rewrite (With_spec _ _ _ _ _ Hl0) in Hc. injection Hc as <-.
    exists EmptyString. by rewrite str_app_nil_r.
  - destruct (logs w !! l0) as [dl0|] eqn:Hl0.
    2:{ unfold Debugf in Hc. by rewrite Hl0 in Hc. }
    rewrite (Debugf_spec _ _ _ _ _ _ Hl0) in Hc. injection Hc as <-.
    destruct (enableDebug dl0); [apply printLevel_appends |].
    exists EmptyString. by rewrite str_app_nil_r.
  - destruct (logs w !! l0) as [dl0|] eqn:Hl0.
    2:{ unfold Infof in Hc. by rewrite Hl0 in Hc. }
    rewrite (Infof_spec _ _ _ _ _ _ Hl0) in Hc. injection Hc as <-.
    apply printLevel_appends.
  - destruct (logs w !! l0) as [dl0|] eqn:Hl0.
    2:{ unfold Errorf in Hc. by rewrite Hl0 in Hc. }
    rewrite (Errorf_spec _ _ _ _ _ _ Hl0) in Hc. injection Hc as <-.
    apply printLevel_appends.
Qed.

(** X14: writers only grow.  Whatever calls of the package are made,
    the bytes a writer had received before are a prefix of the bytes it
    has received after: no call removes or rewrites what was written. *)
Theorem writers_only_grow cs w w' out :
  execAll cs w = Some w' →
  ∃ suffix, written w' out = written w out +:+ suffix.
Proof.
  revert w. induction cs as [|c cs IH]; intros w Hrun; simpl in Hrun.
  - injection Hrun as <-. exists EmptyString. by rewrite str_app_nil_r.
  - destruct (exec c w) as [w1|] eqn:Hc; [| done]. simpl in Hrun.
    destruct (exec_appends _ _ _ out Hc) as (s1 & Hs1).
    destruct (IH _ Hrun) as (s2 & Hs2).
    exists (s1 +:+ s2). by rewrite Hs2, Hs1, str_app_assoc.
Qed.

Lemma writers_only_grow_witness :
  ∃ w', execAll lineage debugWorld = Some w'
    ∧ ∃ suffix, written w' buffer = written debugWorld buffer +:+ suffix.
Proof.
  eexists. split.
  - vm_compute. reflexivity.
  - apply (writers_only_grow lineage debugWorld _ buffer).
    vm_compute. reflexivity.
Defined.

Lemma exec_keeps_keys c w w' l dl :
  logs w !! l = Some dl →
  exec c w = Some w' →
  ∃ dl', logs w' !! l = Some dl'
    ∧ dom (pairs dl) ⊆ dom (pairs dl')
    ∧ ((∀ seed newEntries, c ≠ CallWith seed l newEntries) → dl' = dl).
Proof.
  intros Hl Hc.
  destruct c as [opts|seed l0 newEntries|e l0 f a|e l0 f a|e l0 f a]; simpl in Hc.
  - injection Hc as <-. exists dl. split; [| done]. simpl.
    rewrite lookup_insert_ne; [done |].
    intros Heq. pose proof (NewDefaultLog_fresh opts w) as Hfresh.
    simpl in Hfresh. rewrite Heq in Hfresh. congruence.
  - destruct (logs w !! l0) as [dl0|] eqn:Hl0.
    2:{ unfold With in Hc. by rewrite Hl0 in Hc. }
    rewrite (With_spec _ _ _ _ _ Hl0) in Hc. injection Hc as <-. simpl.
    destruct (decide (l0 = l)) as [->|Hne].
    + rewrite lookup_insert_eq. eexists. split; [done |]. simpl.
      simplify_eq. split.
      * rewrite dom_union_L. apply union_subseteq_r.
      * intros Hnot. by destruct (Hnot seed newEntries).
    + rewrite lookup_insert_ne by done. by exists dl.
  - destruct (logs w !! l0) as [dl0|] eqn:Hl0.
    2:{ unfold Debugf in Hc. by rewrite Hl0 in Hc. }
    rewrite (Debugf_spec _ _ _ _ _ _ Hl0) in Hc. injection Hc as <-.
    exists dl. split; [| done].
    destruct (enableDebug dl0); [by rewrite printLevel_logs | done].
  - destruct (logs w !! l0) as [dl0|] eqn:Hl0.
    2:{ unfold Infof in Hc. by rewrite Hl0 in Hc. }
    rewrite (Infof_spec _ _ _ _ _ _ Hl0) in Hc. injection Hc as <-.
    exists dl. by rewrite printLevel_logs.
  - destruct (logs w !! l0) as [dl0|] eqn:Hl0.
    2:{ unfold Errorf in Hc. by rewrite Hl0 in Hc. }
    rewrite (Errorf_spec _ _ _ _ _ _ Hl0) in Hc. injection Hc as <-.
    exists dl. by rewrite printLevel_logs.
Qed.

(** X15: a context never loses a key.  Whatever calls of the package
    are made, every key a logger's context had before is a key of its
    context after ([With] adds keys and overwrites values, and nothing
    removes a pair). *)
Theorem context_keys_only_grow cs w w' l dl :
  logs w !! l = Some dl →
  execAll cs w = Some w' →
  ∃ dl', logs w' !! l = Some dl' ∧ dom (pairs dl) ⊆ dom (pairs dl').
Proof.
  revert w dl. induction cs as [|c cs IH]; intros w dl Hl Hrun; simpl in Hrun.
  - injection Hrun as <-. by exists dl.
  - destruct (exec c w) as [w1|] eqn:Hc; [| done]. simpl in Hrun.
    destruct (exec_keeps_keys _ _ _ _ _ Hl Hc) as (dl1 & Hl1 & Hsub1 & _).
    destruct (IH _ _ Hl1 Hrun) as (dl' & Hl' & Hsub).
    exists dl'. split; [done |]. by etrans.
Qed.

Lemma context_keys_only_grow_witness :
  ∃ w', execAll lineage debugWorld = Some w'
    ∧ ∃ dl', logs w' !! debugLog = Some dl'
        ∧ dom (∅ : gmap string string) ⊆ dom (pairs dl').
Proof.
  eexists. split.
  - vm_compute. reflexivity.
  - apply (context_keys_only_grow lineage debugWorld _ debugLog
             (mkDefaultLog ∅ true buffer)).
    + reflexivity.
    + vm_compute. reflexivity.
Defined.

(** X16: only [With] on a logger changes that logger.  A sequence of
    calls without a [With] call on the logger (log calls on any logger,
    [With] calls on other loggers, constructions) leaves its context,
    debug flag and writer as they were. *)
Theorem only_With_changes_a_logger cs w w' l dl :
  logs w !! l = Some dl →
  Forall (fun c => ∀ seed newEntries, c ≠ CallWith seed l newEntries) cs →
  execAll cs w = Some w' →
  logs w' !! l = Some dl.
Proof.
  intros Hl Hcs. revert w Hl.
  induction Hcs as [|c cs Hc _ IH]; intros w Hl Hrun; simpl in Hrun.
  - by injection Hrun as <-.
  - destruct (exec c w) as [w1|] eqn:Hexec; [| done]. simpl in Hrun.
    destruct (exec_keeps_keys _ _ _ _ _ Hl Hexec) as (dl1 & Hl1 & _ & Hsame).
    rewrite (Hsame Hc) in Hl1. by apply (IH w1).
Qed.

Lemma only_With_changes_a_logger_witness :
  ∃ w', execAll bystanderCalls debugWorld = Some w'
    ∧ logs w' !! debugLog = Some (mkDefaultLog ∅ true buffer).
Proof.
  eexists. split.
  - vm_compute. reflexivity.
  - apply (only_With_changes_a_logger bystanderCalls debugWorld _ debugLog
             (mkDefaultLog ∅ true buffer)).
    + reflexivity.
    + repeat (constructor; [intros seed newEntries H; vm_compute in H; discriminate H |]).
      constructor.
    + vm_compute. reflexivity.
Defined.

End Sequences.

(** ** The package's test *)

Section Test.

Implicit Types (w : World) (first second : Env).

(** X17: what [TestLog] writes.  In any store and at any time, when the
    locations of its two [Infof] calls are rendered without a percent
    sign, the test appends exactly two lines to its writer: both carry
    the caller (the test's logger has debug enabled, though the level
    is INFO), and in the second the pair [cool=stuff] is followed by the
    message with nothing in between. *)
Theorem TestLog_writes_two_lines first second seed (stderr : Writer) w :
  avoids [percent] (callerWithLine first) = true →
  avoids [percent] (callerWithLine second) = true →
  ∃ w', TestLog first second seed stderr w = Some w'
    ∧ appended w w' stderr
        ((GoTime.RFC3339 (now first) +:+ " |INFO| " +:+ callerWithLine first
          +:+ " testing log: thigns" +:+ nl)
         +:+ (GoTime.RFC3339 (now second) +:+ " |INFO| " +:+ callerWithLine second
              +:+ " cool=stufftesting log 2: thigns" +:+ nl)).
Proof.
  intros Hfirst Hsecond. unfold TestLog.
  pose proof (NewDefaultLog_lookup [WithOutput stderr; WithDebugEnabled] w) as Hl0.
  destruct (NewDefaultLog [WithOutput stderr; WithDebugEnabled] w) as [l w0] eqn:Hnew.
  assert (sinks w0 = sinks w) as Hsinks0.
  { unfold NewDefaultLog in Hnew. by injection Hnew as _ <-. }
  simpl in Hl0.
  destruct (Infof_appended first l "testing log: %s" [AString "thigns"] w0 _ Hl0)
    as (w1 & Hrun1 & Happ1 & Hlogs1).
  rewrite Hrun1. simpl. rewrite <- Hlogs1 in Hl0.
  destruct (With_context seed l {[ "cool" := "stuff" ]} w1 _ Hl0)
    as (w2 & Hwith & Hl2 & _ & Hsinks2 & _).
  rewrite Hwith. simpl.
  destruct (Infof_appended second l "testing log 2: %s" [AString "thigns"] w2 _ Hl2)
    as (w3 & Hrun3 & Happ3 & _).
  exists w3. split; [done |].
  unfold appended in *. simpl in Happ1, Happ3.
  rewrite Happ3, (written_same_sinks _ _ _ Hsinks2), Happ1.
  rewrite (written_same_sinks _ _ _ Hsinks0), str_app_assoc. do 2 f_equal.
  - rewrite line_of_plain_prefix; [| done | |].
    + unfold linePrefix, callerSegment. simpl. rewrite rangeOrder_empty. simpl.
      by rewrite !str_app_assoc.
    + unfold callerSegment. simpl. by rewrite avoids_app, Hfirst.
    + apply contextAvoids_empty.
  - rewrite line_of_plain_prefix; [| done | |].
    + unfold linePrefix, callerSegment. simpl.
      rewrite (right_id_L ∅ (∪)), rangeOrder_singleton. simpl.
      by rewrite !str_app_assoc.
    + unfold callerSegment. simpl. by rewrite avoids_app, Hsecond.
    + simpl. by rewrite (right_id_L ∅ (∪)), contextAvoids_singleton.
Qed.

Lemma TestLog_writes_two_lines_witness :
  ∃ w', TestLog devEnv elsewhereEnv 5 buffer emptyWorld = Some w'
    ∧ appended emptyWorld w' buffer
        ((GoTime.RFC3339 (now devEnv) +:+ " |INFO| " +:+ callerWithLine devEnv
          +:+ " testing log: thigns" +:+ nl)
         +:+ (GoTime.RFC3339 (now elsewhereEnv) +:+ " |INFO| "
              +:+ callerWithLine elsewhereEnv
              +:+ " cool=stufftesting log 2: thigns" +:+ nl)).
Proof.
  refine (TestLog_writes_two_lines devEnv elsewhereEnv 5 buffer emptyWorld _ _).
  - vm_compute. reflexivity.
  - vm_compute. reflexivity.
Defined.

End Test.
